(** * DonutSMP bot: the auction-house search, cache and paging flow

    A shallow embedding of [donut_bot.py]: the API client
    ([make_api_request]), the text helpers ([escape_markdown],
    [format_item_id]), the page renderer ([build_ah_page]), the two
    search commands ([ah_command], [price_command]) and the callback
    router ([button_handler]), followed by the properties proved about
    them.

    Modelling conventions.
    - Python [str] values are [string]s (byte strings); case mapping is
      the ASCII one.
    - Python [int] values are [Z].
    - Response bodies are taken to have the shape the API documents: an
      object whose ['result'], when present, is a list of listing
      objects with integer prices. A listing is a record of the three
      fields the handlers read through [.get]; a missing key is [None].
    - The logger, the conversation's [chat_data] and the messages handed
      to the chat platform are fields of an explicit [world] that every
      handler threads through.
    - [while True] loops take a fuel argument and return [None] when it
      runs out. *)

From Stdlib Require Import ZArith Lia Ascii String DecimalString.
From Stdlib Require Import Sorting.Sorted Sorting.Permutation.
From Stdlib Require DecimalPos.
From stdpp Require Import base list strings gmap.
Import ListNotations.

Open Scope string_scope.
Open Scope list_scope.
Open Scope Z_scope.

(** ** Python string primitives used by the bot *)

Module PyStr.

Definition newline : string := String (ascii_of_nat 10) EmptyString.

Definition is_upper (c : ascii) : bool :=
  let n := nat_of_ascii c in Nat.leb 65 n && Nat.leb n 90.

Definition is_lower (c : ascii) : bool :=
  let n := nat_of_ascii c in Nat.leb 97 n && Nat.leb n 122.

Definition is_cased (c : ascii) : bool := is_upper c || is_lower c.

Definition to_lower (c : ascii) : ascii :=
  if is_upper c then ascii_of_nat (nat_of_ascii c + 32) else c.

Definition to_upper (c : ascii) : ascii :=
  if is_lower c then ascii_of_nat (nat_of_ascii c - 32) else c.

(** [s.lower()] *)
Fixpoint lower (s : string) : string :=
  match s with
  | EmptyString => EmptyString
  | String c s' => String (to_lower c) (lower s')
  end.

(** [s.title()]: a cased character is upper-cased when the character
    before it is not cased, and lower-cased otherwise. *)
Fixpoint title_from (prev_cased : bool) (s : string) : string :=
  match s with
  | EmptyString => EmptyString
  | String c s' =>
      if is_cased c
      then String (if prev_cased then to_lower c else to_upper c)
                  (title_from true s')
      else String c (title_from false s')
  end.

Definition title (s : string) : string := title_from false s.

(** [s.replace(old, new)]: non-overlapping occurrences, left to right.
    [skip] counts the characters of a matched occurrence still to drop. *)
Fixpoint replace_from (old new : string) (skip : nat) (s : string) : string :=
  match s with
  | EmptyString => EmptyString
  | String c s' =>
      match skip with
      | S k => replace_from old new k s'
      | O =>
          if String.prefix old s
          then new +:+ replace_from old new (Nat.pred (String.length old)) s'
          else String c (replace_from old new O s')
      end
  end.

Fixpoint interleave (new s : string) : string :=
  match s with
  | EmptyString => new
  | String c s' => new +:+ String c (interleave new s')
  end.

Definition replace (old new s : string) : string :=
  match old with
  | EmptyString => interleave new s
  | _ => replace_from old new O s
  end.

(** [s.split(sep)] for a one-character separator. *)
Fixpoint split (sep : ascii) (s : string) : list string :=
  match s with
  | EmptyString => [EmptyString]
  | String c s' =>
      if Ascii.eqb c sep then EmptyString :: split sep s'
      else match split sep s' with
           | f :: fs => String c f :: fs
           | [] => [String c EmptyString]
           end
  end.

(** [sep.join(parts)] *)
Definition join (sep : string) (parts : list string) : string :=
  String.concat sep parts.

(** [t in s] *)
Fixpoint contains (t s : string) : bool :=
  String.prefix t s ||
  match s with
  | EmptyString => false
  | String _ s' => contains t s'
  end.

(** [str(n)] for an [int] *)
Definition str_of_int (n : Z) : string :=
  NilEmpty.string_of_int (Z.to_int n).

(** [f"{n:,}"]: decimal digits grouped by three. *)
Fixpoint group3 (digits : string) : string :=
  match digits with
  | EmptyString => EmptyString
  | String c rest =>
      let k := String.length rest in
      if Nat.ltb 0 k && Nat.eqb (Nat.modulo k 3) 0
      then String c ("," +:+ group3 rest)
      else String c (group3 rest)
  end.

Definition format_thousands (n : Z) : string :=
  (if n <? 0 then "-" else "") +:+ group3 (str_of_int (Z.abs n)).

(** [int(s)]: surrounding whitespace is dropped, one sign is allowed, and
    the digits may be separated by single underscores. The blanks
    [int] skips are the space and the characters 9..13. *)
Definition is_space (c : ascii) : bool :=
  let n := nat_of_ascii c in
  (Nat.leb 9 n && Nat.leb n 13) || Nat.eqb n 32.

Definition digit_of (c : ascii) : option Z :=
  let n := nat_of_ascii c in
  if Nat.leb 48 n && Nat.leb n 57 then Some (Z.of_nat (n - 48)) else None.

Fixpoint lstrip (s : string) : string :=
  match s with
  | String c s' => if is_space c then lstrip s' else s
  | EmptyString => EmptyString
  end.

Fixpoint all_space (s : string) : bool :=
  match s with
  | EmptyString => true
  | String c s' => is_space c && all_space s'
  end.

(** Digits after the first one; [after_digit] tells whether the previous
    character was a digit (an underscore must sit between two digits). *)
Fixpoint digits_from (acc : Z) (after_digit : bool) (s : string) : option Z :=
  match s with
  | EmptyString => if after_digit then Some acc else None
  | String c s' =>
      match digit_of c with
      | Some d => digits_from (10 * acc + d) true s'
      | None =>
          if Ascii.eqb c "_" then
            if after_digit then digits_from acc false s' else None
          else if after_digit && all_space s then Some acc else None
      end
  end.

Definition unsigned_of (s : string) : option Z :=
  match s with
  | String c _ =>
      match digit_of c with
      | Some _ => digits_from 0 false s
      | None => None
      end
  | EmptyString => None
  end.

Definition int_of_str (s : string) : option Z :=
  match lstrip s with
  | String "-" s' => Z.opp <$> unsigned_of s'
  | String "+" s' => unsigned_of s'
  | s' => unsigned_of s'
  end.

End PyStr.

Import PyStr.

(** ** Data model *)

(** One auction listing as the handlers read it:
    [item.get('item', {}).get('id', d)], [item.get('seller', {}).get('name', d)]
    and [item.get('price', d)]; [None] is the key being absent. *)
Record listing := Listing {
  item_id : option string;
  seller_name : option string;
  price : option Z
}.

(** A decoded response body; the search handlers read only ['result']. *)
Record payload := Payload {
  result : option (list listing)
}.

(** What [requests.get(url, headers=HEADERS)] followed by
    [response.json()] can do. *)
Inductive http_outcome :=
| RequestFailed (err : string)
| Response (status_code : Z) (text : string) (json : string + payload).

Inductive log_level := WARNING | ERROR.

Record log_record := LogRecord {
  level : log_level;
  message : string
}.

Record button := InlineKeyboardButton {
  label : string;
  callback_data : string
}.

(** [InlineKeyboardMarkup(rows)] *)
Definition keyboard := list (list button).

Inductive event :=
| ReplyText (text : string) (reply_markup : option keyboard)
| EditMessageText (text : string) (reply_markup : option keyboard)
| AnswerQuery.

(** The value stored under a search id in [context.chat_data]. *)
Record cache_entry := CacheEntry {
  term : string;
  results : list listing
}.

Record world := World {
  requests : list string;
  log : list log_record;
  chat_data : gmap string cache_entry;
  outbox : list event
}.

Definition empty_world : world := World [] [] ∅ [].

Definition record_request (url : string) (w : world) : world :=
  World (requests w ++ [url]) (log w) (chat_data w) (outbox w).

Definition emit_log (r : log_record) (w : world) : world :=
  World (requests w) (log w ++ [r]) (chat_data w) (outbox w).

(** A call into the chat platform is recorded as an event; whether the
    platform accepts it is outside the model. *)
Definition send (e : event) (w : world) : world :=
  World (requests w) (log w) (chat_data w) (outbox w ++ [e]).

Definition store (search_id : string) (e : cache_entry) (w : world) : world :=
  World (requests w) (log w) (<[search_id := e]> (chat_data w)) (outbox w).

Inductive py_exception := ValueError.

Inductive outcome :=
| Returned (w : world)
| Raised (e : py_exception) (w : world).

Definition final_world (o : outcome) : world :=
  match o with Returned w | Raised _ w => w end.

(** ** Builtins: slicing, [sorted] and [min] with the price key *)

(** [l[a:b]] with Python's treatment of negative and oversized bounds. *)
Definition slice {A} (l : list A) (a b : Z) : list A :=
  let n := Z.of_nat (length l) in
  let clamp i := if i <? 0 then Z.max (i + n) 0 else Z.min i n in
  take (Z.to_nat (clamp b - clamp a)) (drop (Z.to_nat (clamp a)) l).

(** [x.get('price', float('inf'))] *)
Inductive sort_key := Finite (p : Z) | Infinity.

Definition key_lt (a b : sort_key) : bool :=
  match a, b with
  | Finite x, Finite y => x <? y
  | Finite _, Infinity => true
  | Infinity, _ => false
  end.

Definition price_key (x : listing) : sort_key :=
  match price x with
  | Some p => Finite p
  | None => Infinity
  end.

(** [sorted(l, key=price_key)]: the stable ascending sort. An element is
    placed in front of the first element that is not strictly smaller. *)
Fixpoint insert_sorted (x : listing) (l : list listing) : list listing :=
  match l with
  | [] => [x]
  | y :: l' =>
      if key_lt (price_key y) (price_key x)
      then y :: insert_sorted x l'
      else x :: y :: l'
  end.

Definition py_sorted (l : list listing) : list listing :=
  foldr insert_sorted [] l.

(** [min(l, key=price_key)]: the running best is replaced only by a
    strictly smaller element; [None] is the [ValueError] on an empty list. *)
Fixpoint min_from (best : listing) (l : list listing) : listing :=
  match l with
  | [] => best
  | x :: l' =>
      if key_lt (price_key x) (price_key best)
      then min_from x l'
      else min_from best l'
  end.

Definition py_min (l : list listing) : option listing :=
  match l with
  | [] => None
  | x :: l' => Some (min_from x l')
  end.

(** ** API client and helpers *)

Definition BASE_URL : string := "https://api.donutsmp.net/v1".

Definition ITEMS_PER_PAGE : Z := 10.

Section Bot.

(** The remote server: what a GET on a URL produces. *)
Variable remote : string -> http_outcome.

Definition make_api_request (endpoint : string) (w : world)
  : option payload * world :=
  let w := record_request (BASE_URL +:+ endpoint) w in
  match remote (BASE_URL +:+ endpoint) with
  | Response status_code text json =>
      if (status_code =? 200) || (status_code =? 500) then
        match json with
        | inr data => (Some data, w)
        | inl e =>
            (None,
             emit_log (LogRecord ERROR
               ("Failed to call API endpoint " +:+ endpoint +:+ ": " +:+ e)) w)
        end
      else if status_code =? 404 then (None, w)
      else
        (None,
         emit_log (LogRecord WARNING
           ("API Error on " +:+ endpoint +:+ ": " +:+ str_of_int status_code
            +:+ " - " +:+ text)) w)
  | RequestFailed e =>
      (None,
       emit_log (LogRecord ERROR
         ("Failed to call API endpoint " +:+ endpoint +:+ ": " +:+ e)) w)
  end.

Definition escape_chars : string := "_*[]()~`>#+-=|{}.!".

Fixpoint mem_char (c : ascii) (s : string) : bool :=
  match s with
  | EmptyString => false
  | String d s' => Ascii.eqb c d || mem_char c s'
  end.

Fixpoint escape_markdown (text : string) : string :=
  match text with
  | EmptyString => EmptyString
  | String c s' =>
      if mem_char c escape_chars
      then String "\" (String c (escape_markdown s'))
      else String c (escape_markdown s')
  end.

Definition format_item_id (item_id : string) : string :=
  title (replace "_" " " (replace "minecraft:" "" item_id)).

(** ** Page renderer *)

Definition render_line (item : listing) : string :=
  let item_name :=
    escape_markdown (format_item_id (default "Unknown" (item_id item))) in
  let seller := escape_markdown (default "Unknown" (seller_name item)) in
  let price := format_thousands (default 0 (price item)) in
  "`" +:+ item_name +:+ "` from *" +:+ seller +:+ "* for \`$"
      +:+ escape_markdown price +:+ "\`\.".

Definition page_items (sorted_items : list listing) (page_index : Z)
  : list listing :=
  let start_index := page_index * ITEMS_PER_PAGE in
  let end_index := start_index + ITEMS_PER_PAGE in
  slice sorted_items start_index end_index.

Definition page_header (search_term : string) (sorted_items : list listing)
    (page_index : Z) : string :=
  "Found *" +:+ str_of_int (Z.of_nat (length sorted_items))
    +:+ "* match\(es\) for `" +:+ escape_markdown search_term
    +:+ "`\. Page " +:+ str_of_int (page_index + 1) +:+ ":".

Definition page_text (search_term : string) (sorted_items : list listing)
    (page_index : Z) : string :=
  let message_parts :=
    page_header search_term sorted_items page_index
    :: map render_line (page_items sorted_items page_index) in
  join newline message_parts.

Definition previous_button (search_id : string) (page_index : Z) : button :=
  InlineKeyboardButton "⬅️ Previous"
    ("ah:" +:+ search_id +:+ ":" +:+ str_of_int (page_index - 1)).

Definition next_button (search_id : string) (page_index : Z) : button :=
  InlineKeyboardButton "Next ➡️"
    ("ah:" +:+ search_id +:+ ":" +:+ str_of_int (page_index + 1)).

Definition page_buttons (search_id : string) (sorted_items : list listing)
    (page_index : Z) : list button :=
  let start_index := page_index * ITEMS_PER_PAGE in
  let end_index := start_index + ITEMS_PER_PAGE in
  (if page_index >? 0 then [previous_button search_id page_index] else [])
  ++
  (if end_index <? Z.of_nat (length sorted_items)
   then [next_button search_id page_index] else []).

Definition build_ah_page (search_id search_term : string)
    (sorted_items : list listing) (page_index : Z) : string * keyboard :=
  (page_text search_term sorted_items page_index,
   [page_buttons search_id sorted_items page_index]).

(** ** Search commands *)

Definition list_endpoint (page : Z) : string :=
  "/auction/list/" +:+ str_of_int page.

(** [data.get('result') if data else None] *)
Definition auctions_of (data : option payload) : option (list listing) :=
  match data with
  | Some d => result d
  | None => None
  end.

(** [format_item_id(item.get('item', {}).get('id', '')).lower()] *)
Definition normalized_name (item : listing) : string :=
  lower (format_item_id (default "" (item_id item))).

Definition matches (search_term : string) (item : listing) : bool :=
  contains search_term (normalized_name item).

(** [" ".join(context.args).lower()] *)
Definition search_term_of (args : list string) : string :=
  lower (join " " args).

(** The scan loop of [ah_command], entered with the current [page] and
    [matching_items]. *)
Fixpoint ah_scan (fuel : nat) (search_term : string) (page : Z)
    (matching_items : list listing) (w : world)
  : option (list listing * world) :=
  match fuel with
  | O => None
  | S fuel' =>
      let '(data, w) := make_api_request (list_endpoint page) w in
      match auctions_of data with
      | None | Some [] => Some (matching_items, w)
      | Some auctions =>
          let matching_items :=
            matching_items ++ filter (λ item, matches search_term item = true) auctions in
          let page := page + 1 in
          if page >? 100 then Some (matching_items, w)
          else ah_scan fuel' search_term page matching_items w
      end
  end.

(** The scan loop of [price_command]: the same body without the cap. *)
Fixpoint price_scan (fuel : nat) (search_term : string) (page : Z)
    (matching_items : list listing) (w : world)
  : option (list listing * world) :=
  match fuel with
  | O => None
  | S fuel' =>
      let '(data, w) := make_api_request (list_endpoint page) w in
      match auctions_of data with
      | None | Some [] => Some (matching_items, w)
      | Some auctions =>
          let matching_items :=
            matching_items ++ filter (λ item, matches search_term item = true) auctions in
          let page := page + 1 in
          price_scan fuel' search_term page matching_items w
      end
  end.

Definition searching_notice (search_term tail : string) : event :=
  ReplyText ("🔎 Searching all auctions for `" +:+ escape_markdown search_term
             +:+ "`\. " +:+ tail) None.

Definition not_found_reply (search_term : string) : event :=
  ReplyText ("Could not find any items matching `"
             +:+ escape_markdown search_term +:+ "`\.") None.

(** [uuid] is the string [str(uuid.uuid4())] evaluates to. *)
Definition ah_command (fuel : nat) (args : list string) (uuid : string)
    (w : world) : option world :=
  match args with
  | [] => Some (send (ReplyText "Usage: `/ah {item name}`" None) w)
  | _ =>
      let search_term := search_term_of args in
      let w := send (searching_notice search_term
                       "This may take a moment\.\.\.") w in
      match ah_scan fuel search_term 1 [] w with
      | None => None
      | Some ([], w) => Some (send (not_found_reply search_term) w)
      | Some (matching_items, w) =>
          let sorted_items := py_sorted matching_items in
          let search_id := uuid in
          let w := store search_id (CacheEntry search_term sorted_items) w in
          let '(message_text, keyboard) :=
            build_ah_page search_id search_term sorted_items 0 in
          Some (send (ReplyText message_text (Some keyboard)) w)
      end
  end.

Definition lowest_price_text (lowest_auction : listing) : string :=
  let item_name :=
    escape_markdown
      (format_item_id (default "Unknown" (item_id lowest_auction))) in
  let seller :=
    escape_markdown (default "Unknown" (seller_name lowest_auction)) in
  let price := format_thousands (default 0 (price lowest_auction)) in
  "💎 *Lowest Price Found*" +:+ newline +:+ newline
    +:+ "Item: `" +:+ item_name +:+ "`" +:+ newline
    +:+ "Seller: *" +:+ seller +:+ "*" +:+ newline
    +:+ "Price: \`$" +:+ escape_markdown price +:+ "\`".

Definition price_command (fuel : nat) (args : list string) (w : world)
  : option world :=
  match args with
  | [] => Some (send (ReplyText "Usage: `/price {item name}`" None) w)
  | _ =>
      let search_term := search_term_of args in
      let w := send (searching_notice search_term
                       "This will be very slow\.\.\.") w in
      match price_scan fuel search_term 1 [] w with
      | None => None
      | Some (matching_items, w) =>
          match py_min matching_items with
          | None => Some (send (not_found_reply search_term) w)
          | Some lowest_auction =>
              Some (send (ReplyText (lowest_price_text lowest_auction) None) w)
          end
      end
  end.

(** ** Callback router *)

Definition expired_text : string :=
  "This search has expired or is invalid\. Please run the command again\.".

Definition button_handler (data : string) (w : world) : outcome :=
  let w := send AnswerQuery w in
  match split ":" data with
  | [command; search_id; page_index_str] =>
      match int_of_str page_index_str with
      | None => Raised ValueError w
      | Some page_index =>
          if String.eqb command "ah" then
            match chat_data w !! search_id with
            | None => Returned (send (EditMessageText expired_text None) w)
            | Some cached_data =>
                let search_term := term cached_data in
                let sorted_items := results cached_data in
                let '(message_text, keyboard) :=
                  build_ah_page search_id search_term sorted_items page_index in
                Returned (send (EditMessageText message_text (Some keyboard)) w)
            end
          else Returned w
      end
  | _ => Returned w
  end.

End Bot.

(** ** Vocabulary of the properties *)

#[global] Instance sort_key_eq_dec : EqDecision sort_key.
Proof. solve_decision. Defined.

(** [a <= b] on keys, as "not [b < a]". *)
Definition key_le (a b : sort_key) : Prop := key_lt b a = false.

Definition listing_le (x y : listing) : Prop :=
  key_le (price_key x) (price_key y).

Definition has_price (x : listing) : Prop := is_Some (price x).

#[global] Instance has_price_dec (x : listing) : Decision (has_price x).
Proof. unfold has_price. apply _. Defined.

(** Whether a keyboard carries a button with the given label. *)
Definition has_button (lbl : string) (kb : keyboard) : bool :=
  existsb (λ b, String.eqb (label b) lbl) (concat kb).

Definition has_previous (kb : keyboard) : bool := has_button "⬅️ Previous" kb.

Definition has_next (kb : keyboard) : bool := has_button "Next ➡️" kb.

(** The pages [first, first+1, ...], [count] of them. *)
Fixpoint pages_from (first : Z) (count : nat) : list Z :=
  match count with
  | O => []
  | S c => first :: pages_from (first + 1) c
  end.

Definition page_url (page : Z) : string := BASE_URL +:+ list_endpoint page.

(** What [make_api_request] hands back for an endpoint. *)
Definition api_data (remote : string → http_outcome) (endpoint : string)
  : option payload :=
  fst (make_api_request remote endpoint empty_world).

(** The listings a scan reads off page [page]; [[]] ends the scan. *)
Definition page_listings (remote : string → http_outcome) (page : Z)
  : list listing :=
  default [] (auctions_of (api_data remote (list_endpoint page))).

(** The matches on [count] consecutive pages, in remote order. *)
Definition collected (remote : string → http_outcome) (search_term : string)
    (first : Z) (count : nat) : list listing :=
  filter (λ item, matches search_term item = true)
         (concat (map (page_listings remote) (pages_from first count))).

(** A scan leaves everything but the request trace and the log alone. *)
Definition scanned (pages : list Z) (w w' : world) : Prop :=
  requests w' = requests w ++ map page_url pages ∧
  chat_data w' = chat_data w ∧
  outbox w' = outbox w.

(** A navigation token of the shape the renderer emits:
    ["ah:<search_id>:<page_index>"]. *)
Definition well_formed_token (data search_id : string) (page_index : Z)
  : Prop :=
  ∃ page_index_str,
    split ":" data = ["ah"; search_id; page_index_str] ∧
    int_of_str page_index_str = Some page_index.

(** ** Sample data *)

Definition sample_listing (p : Z) : listing :=
  Listing (Some "minecraft:diamond_sword") (Some "Steve") (Some p).

Definition sample_cache : gmap string cache_entry :=
  {[ "id" := CacheEntry "sword" (map sample_listing [100; 100; 300; 500]) ]}.

(** A remote with two pages of listings; page 2 is served with status
    500, page 3 is an error. *)
Definition sample_remote (url : string) : http_outcome :=
  if String.eqb url "https://api.donutsmp.net/v1/auction/list/1" then
    Response 200 "" (inr (Payload (Some (map sample_listing [500; 100; 100; 300]))))
  else if String.eqb url "https://api.donutsmp.net/v1/auction/list/2" then
    Response 500 "" (inr (Payload (Some [Listing (Some "minecraft:stone") None None;
                                         Listing (Some "Minecraft:Iron_Sword") (Some "Alex") None;
                                         sample_listing 50])))
  else if String.eqb url "https://api.donutsmp.net/v1/auction/list/3" then
    Response 503 "unavailable" (inl "no body")
  else Response 404 "" (inl "no body").

(** What one call of [button_handler] adds to the outbox, as a function
    of the token and the cache. *)
Definition emitted (data : string) (cache : gmap string cache_entry)
  : list event :=
  AnswerQuery ::
  match split ":" data with
  | [command; search_id; page_index_str] =>
      match int_of_str page_index_str with
      | None => []
      | Some page_index =>
          if String.eqb command "ah" then
            match cache !! search_id with
            | None => [EditMessageText expired_text None]
            | Some cached_data =>
                let page :=
                  build_ah_page search_id (term cached_data)
                    (results cached_data) page_index in
                [EditMessageText (fst page) (Some (snd page))]
            end
          else []
      end
  | _ => []
  end.

(** ** Listing one page: [auctions_command] *)

(** [page] is [context.args[0]] when there is one and [1] otherwise; it
    goes into the endpoint and the messages as it is. *)
Definition auctions_command (remote : string → http_outcome)
    (args : list string) (w : world) : world :=
  let page := match args with a :: _ => a | [] => str_of_int 1 end in
  let w := send (ReplyText ("🛒 Fetching Auction House page " +:+ page
                            +:+ "\.\.\.") None) w in
  let '(data, w) := make_api_request remote ("/auction/list/" +:+ page) w in
  match auctions_of data with
  | None | Some [] =>
      send (ReplyText "No auction items found on this page\." None) w
  | Some auctions =>
      let message_parts :=
        ("*Auction House \- Page " +:+ page +:+ "*")
        :: map render_line (slice auctions 0 10) in
      send (ReplyText (join newline message_parts) None) w
  end.

(** ** Further vocabulary *)

(** The number a digit sequence denotes, read left to right from [acc]. *)
Fixpoint uint_value (acc : Z) (d : Decimal.uint) : Z :=
  match d with
  | Decimal.Nil => acc
  | Decimal.D0 l => uint_value (10 * acc + 0) l
  | Decimal.D1 l => uint_value (10 * acc + 1) l
  | Decimal.D2 l => uint_value (10 * acc + 2) l
  | Decimal.D3 l => uint_value (10 * acc + 3) l
  | Decimal.D4 l => uint_value (10 * acc + 4) l
  | Decimal.D5 l => uint_value (10 * acc + 5) l
  | Decimal.D6 l => uint_value (10 * acc + 6) l
  | Decimal.D7 l => uint_value (10 * acc + 7) l
  | Decimal.D8 l => uint_value (10 * acc + 8) l
  | Decimal.D9 l => uint_value (10 * acc + 9) l
  end.

(** Dropping the backslash in front of each reserved character. *)
Fixpoint unescape_markdown (text : string) : string :=
  match text with
  | EmptyString => EmptyString
  | String c s' =>
      match s' with
      | String d s'' =>
          if Ascii.eqb c "\" && mem_char d escape_chars
          then String d (unescape_markdown s'')
          else String c (unescape_markdown s')
      | EmptyString => String c EmptyString
      end
  end.

(** How many reserved characters a text has. *)
Fixpoint reserved_count (text : string) : nat :=
  match text with
  | EmptyString => O
  | String c s' =>
      if mem_char c escape_chars then S (reserved_count s')
      else reserved_count s'
  end.

Fixpoint remove_char (c : ascii) (s : string) : string :=
  match s with
  | EmptyString => EmptyString
  | String d s' =>
      if Ascii.eqb d c then remove_char c s' else String d (remove_char c s')
  end.

(** What every entry written by [ah_command] satisfies: a lower-case
    term, and a non-empty, price-sorted list of listings matching it. *)
Definition entry_ok (e : cache_entry) : Prop :=
  lower (term e) = term e ∧
  results e ≠ [] ∧
  StronglySorted listing_le (results e) ∧
  Forall (λ item, matches (term e) item = true) (results e).

Definition cache_ok (cache : gmap string cache_entry) : Prop :=
  ∀ search_id e, cache !! search_id = Some e → entry_ok e.

(** ** Facts about the string primitives *)

Section StringFacts.

Lemma to_lower_idem (c : ascii) : to_lower (to_lower c) = to_lower c.
Proof. destruct c as [[] [] [] [] [] [] [] []]; reflexivity. Qed.

Lemma to_lower_upper (c : ascii) : to_lower (to_upper c) = to_lower c.
Proof. destruct c as [[] [] [] [] [] [] [] []]; reflexivity. Qed.

Lemma lower_title_from (b : bool) (s : string) :
  lower (title_from b s) = lower s.
Proof.
  revert b. induction s as [|c s IH]; intros b; simpl; [reflexivity|].
  destruct (is_cased c); simpl; rewrite IH; [|reflexivity].
  destruct b; [rewrite to_lower_idem | rewrite to_lower_upper]; reflexivity.
Qed.

(** Lower-casing after title-casing is plain lower-casing. *)
Lemma lower_title (s : string) : lower (title s) = lower s.
Proof. apply lower_title_from. Qed.

Lemma append_cons (c : ascii) (s t : string) :
  String c s +:+ t = String c (s +:+ t).
Proof. reflexivity. Qed.

Lemma prefix_spec (t s : string) :
  String.prefix t s = true ↔ ∃ b, s = t +:+ b.
Proof.
  revert s. induction t as [|c t IH]; intros s; simpl.
  - split; [intros _; exists s; reflexivity | intros _; destruct s; reflexivity].
  - destruct s as [|d s]; simpl.
    + split; [discriminate | intros [b Hb]; discriminate].
    + destruct (Ascii.ascii_dec c d) as [->|Hne].
      * rewrite IH. split; intros [b Hb]; exists b;
          rewrite append_cons in *; congruence.
      * split; [discriminate|].
        intros [b Hb]. rewrite append_cons in Hb. congruence.
Qed.

(** [contains t s] is the substring test. *)
Lemma contains_spec (t s : string) :
  contains t s = true ↔ ∃ a b, s = a +:+ t +:+ b.
Proof.
  induction s as [|c s IH]; cbn [contains].
  - rewrite orb_false_r, prefix_spec. split.
    + intros [b Hb]. exists "", b. exact Hb.
    + intros [a [b Hb]]. destruct a; [exists b; exact Hb|].
      rewrite append_cons in Hb. discriminate.
  - rewrite orb_true_iff, prefix_spec, IH. split.
    + intros [[b Hb] | [a [b Hb]]].
      * exists "", b. exact Hb.
      * exists (String c a), b. rewrite append_cons, Hb. reflexivity.
    + intros [a [b Hb]]. destruct a as [|d a].
      * left. exists b. exact Hb.
      * right. exists a, b. rewrite append_cons in Hb. congruence.
Qed.

End StringFacts.

(** ** Facts about the price order, [sorted] and [min] *)

Section OrderFacts.

Lemma key_lt_irrefl (a : sort_key) : key_lt a a = false.
Proof. destruct a; simpl; [apply Z.ltb_irrefl | reflexivity]. Qed.

Lemma key_lt_trans (a b c : sort_key) :
  key_lt a b = true → key_lt b c = true → key_lt a c = true.
Proof. destruct a, b, c; simpl; try congruence; lia. Qed.

Lemma key_le_trans (a b c : sort_key) : key_le a b → key_le b c → key_le a c.
Proof. unfold key_le. destruct a, b, c; simpl; try congruence; lia. Qed.

Lemma key_lt_le_trans (a b c : sort_key) :
  key_lt a b = true → key_le b c → key_lt a c = true.
Proof. unfold key_le. destruct a, b, c; simpl; try congruence; lia. Qed.

Lemma key_le_lt_trans (a b c : sort_key) :
  key_le a b → key_lt b c = true → key_lt a c = true.
Proof. unfold key_le. destruct a, b, c; simpl; try congruence; lia. Qed.

Lemma key_lt_le (a b : sort_key) : key_lt a b = true → key_le a b.
Proof. unfold key_le. destruct a, b; simpl; try congruence; lia. Qed.

Lemma insert_sorted_perm (x : listing) (l : list listing) :
  Permutation (x :: l) (insert_sorted x l).
Proof.
  induction l as [|y l IH]; simpl; [reflexivity|].
  destruct (key_lt (price_key y) (price_key x)); [|reflexivity].
  rewrite perm_swap. apply perm_skip, IH.
Qed.

Lemma py_sorted_perm (l : list listing) : Permutation l (py_sorted l).
Proof.
  induction l as [|x l IH]; simpl; [reflexivity|].
  rewrite <- insert_sorted_perm. apply perm_skip, IH.
Qed.

Lemma insert_sorted_Forall (P : listing → Prop) (x : listing) (l : list listing) :
  P x → Forall P l → Forall P (insert_sorted x l).
Proof.
  intros Hx Hl. rewrite <- (insert_sorted_perm x l). constructor; assumption.
Qed.

Lemma insert_sorted_sorted (x : listing) (l : list listing) :
  StronglySorted listing_le l → StronglySorted listing_le (insert_sorted x l).
Proof.
  induction 1 as [|y l Hs IH Hy]; simpl.
  - repeat constructor.
  - destruct (key_lt (price_key y) (price_key x)) eqn:E.
    + constructor; [exact IH|].
      apply insert_sorted_Forall; [|exact Hy].
      apply key_lt_le, E.
    + constructor; [constructor; assumption|].
      constructor; [exact E|].
      eapply Forall_impl; [exact Hy|].
      intros z Hz. eapply key_le_trans; [exact E | exact Hz].
Qed.

Lemma py_sorted_sorted (l : list listing) :
  StronglySorted listing_le (py_sorted l).
Proof.
  induction l as [|x l IH]; simpl; [constructor|].
  apply insert_sorted_sorted, IH.
Qed.

Lemma filter_insert_sorted (k : sort_key) (x : listing) (l : list listing) :
  filter (λ y, price_key y = k) (insert_sorted x l)
  = filter (λ y, price_key y = k) (x :: l).
Proof.
  induction l as [|y l IH]; simpl; [reflexivity|].
  destruct (key_lt (price_key y) (price_key x)) eqn:E; [|reflexivity].
  rewrite !filter_cons in *.
  rewrite IH.
  destruct (decide (price_key x = k)) as [Hx|Hx];
    destruct (decide (price_key y = k)) as [Hy|Hy]; try reflexivity.
  rewrite Hx, Hy, key_lt_irrefl in E. discriminate.
Qed.

(** Stability: listings with one and the same key keep their order. *)
Lemma py_sorted_stable (k : sort_key) (l : list listing) :
  filter (λ y, price_key y = k) (py_sorted l)
  = filter (λ y, price_key y = k) l.
Proof.
  induction l as [|x l IH]; simpl; [reflexivity|].
  rewrite filter_insert_sorted, !filter_cons, IH. reflexivity.
Qed.

Lemma py_sorted_nil_inv (l : list listing) : py_sorted l = [] → l = [].
Proof.
  intros H. apply Permutation_nil. rewrite <- H. symmetry. apply py_sorted_perm.
Qed.

Lemma insert_sorted_priced (x : listing) (a b : list listing) :
  has_price x → Forall (λ y, ¬ has_price y) b →
  insert_sorted x (a ++ b) = insert_sorted x a ++ b.
Proof.
  intros [p Hp] Hb. induction a as [|y a IH]; simpl.
  - destruct b as [|y b]; simpl; [reflexivity|].
    apply Forall_cons in Hb as [Hy _].
    unfold price_key. rewrite Hp.
    destruct (price y) eqn:E; [|reflexivity].
    exfalso. apply Hy. unfold has_price. rewrite E. eauto.
  - destruct (key_lt (price_key y) (price_key x)); [|reflexivity].
    rewrite IH. reflexivity.
Qed.

Lemma insert_sorted_unpriced (x : listing) (a b : list listing) :
  ¬ has_price x → Forall has_price a → Forall (λ y, ¬ has_price y) b →
  insert_sorted x (a ++ b) = a ++ x :: b.
Proof.
  intros Hx Ha Hb. assert (price_key x = Infinity) as Hk.
  { unfold price_key. destruct (price x) eqn:E; [|reflexivity].
    exfalso. apply Hx. unfold has_price. rewrite E. eauto. }
  induction a as [|y a IH]; simpl.
  - destruct b as [|y b]; simpl; [reflexivity|].
    apply Forall_cons in Hb as [Hy _].
    rewrite Hk. unfold price_key. destruct (price y) eqn:E; [|reflexivity].
    exfalso. apply Hy. unfold has_price. rewrite E. eauto.
  - apply Forall_cons in Ha as [[p Hy] Ha].
    unfold price_key at 1. rewrite Hy, Hk. simpl.
    rewrite IH by assumption. reflexivity.
Qed.

(** Listings without a price come after all the others, in their
    original order. *)
Lemma py_sorted_unpriced_last (l : list listing) :
  py_sorted l
  = py_sorted (filter has_price l) ++ filter (λ x, ¬ has_price x) l.
Proof.
  induction l as [|x l IH]; [reflexivity|].
  rewrite !filter_cons. cbn [py_sorted foldr]. fold (py_sorted l). rewrite IH.
  destruct (decide (has_price x)) as [Hx|Hx].
  - rewrite decide_False by tauto.
    cbn [py_sorted foldr]. apply insert_sorted_priced; [exact Hx|].
    apply Forall_forall. intros y Hy.
    apply list_elem_of_filter in Hy. tauto.
  - rewrite decide_True by exact Hx.
    apply insert_sorted_unpriced; [exact Hx| |].
    + rewrite <- (py_sorted_perm (filter has_price l)).
      apply Forall_forall. intros y Hy.
      apply list_elem_of_filter in Hy. tauto.
    + apply Forall_forall. intros y Hy.
      apply list_elem_of_filter in Hy. tauto.
Qed.

End OrderFacts.

Section MinFacts.

Lemma min_from_step (x : listing) (l : list listing) :
  min_from x l
  = match py_min l with
    | None => x
    | Some m => if key_lt (price_key m) (price_key x) then m else x
    end.
Proof.
  revert x. induction l as [|y l IH]; intros x; [reflexivity|].
  cbn [min_from py_min]. rewrite (IH y), (IH x).
  destruct (py_min l) as [m|].
  - destruct (key_lt (price_key m) (price_key y)) eqn:Emy;
      destruct (key_lt (price_key y) (price_key x)) eqn:Eyx;
      rewrite ?Emy, ?Eyx; try reflexivity.
    + rewrite (key_lt_trans _ _ _ Emy Eyx). reflexivity.
    + destruct (key_lt (price_key m) (price_key x)) eqn:Emx; [|reflexivity].
      pose proof (key_lt_le_trans _ _ _ Emx Eyx) as H.
      rewrite H in Emy. discriminate.
  - destruct (key_lt (price_key y) (price_key x)); reflexivity.
Qed.

Lemma head_insert_sorted (x : listing) (l : list listing) :
  head (insert_sorted x l)
  = match head l with
    | None => Some x
    | Some y => if key_lt (price_key y) (price_key x) then Some y else Some x
    end.
Proof.
  destruct l as [|y l]; simpl; [reflexivity|].
  destruct (key_lt (price_key y) (price_key x)); reflexivity.
Qed.

(** [min] picks the element [sorted] puts first. *)
Lemma head_py_sorted (l : list listing) : head (py_sorted l) = py_min l.
Proof.
  induction l as [|x l IH]; [reflexivity|].
  cbn [py_sorted foldr]. fold (py_sorted l).
  rewrite head_insert_sorted, IH. cbn [py_min]. rewrite min_from_step.
  destruct (py_min l) as [m|]; [|reflexivity].
  destruct (key_lt (price_key m) (price_key x)); reflexivity.
Qed.

(** [min] returns the first listing of least key: every earlier listing
    is strictly dearer, no later one is cheaper. *)
Lemma py_min_first_least (l : list listing) (m : listing) :
  py_min l = Some m →
  ∃ pre post,
    l = pre ++ m :: post ∧
    Forall (λ x, key_lt (price_key m) (price_key x) = true) pre ∧
    Forall (λ x, key_le (price_key m) (price_key x)) post.
Proof.
  revert m. induction l as [|x l IH]; intros m; [discriminate|].
  cbn [py_min]. rewrite min_from_step. intros [= Hm].
  destruct (py_min l) as [m'|] eqn:El.
  - destruct (IH m' eq_refl) as (pre & post & -> & Hpre & Hpost).
    destruct (key_lt (price_key m') (price_key x)) eqn:E; subst m.
    + exists (x :: pre), post. repeat split; [|exact Hpost].
      constructor; assumption.
    + exists [], (pre ++ m' :: post). repeat split; [constructor|].
      apply Forall_app. split; [|constructor].
      * eapply Forall_impl; [exact Hpre|]. intros z Hz.
        apply key_lt_le. eapply key_le_lt_trans; [exact E | exact Hz].
      * exact E.
      * eapply Forall_impl; [exact Hpost|]. intros z Hz.
        eapply key_le_trans; [exact E | exact Hz].
  - subst m. destruct l; [|discriminate].
    exists [], []. repeat split; constructor.
Qed.

Lemma py_min_None (l : list listing) : py_min l = None ↔ l = [].
Proof. destruct l; simpl; split; intros; (reflexivity || discriminate). Qed.

End MinFacts.

(** ** Facts about the two scan loops *)

Section ScanFacts.

Variable remote : string → http_outcome.

Local Abbreviation api_data := (api_data remote).
Local Abbreviation page_listings := (page_listings remote).
Local Abbreviation collected := (collected remote).

Lemma make_api_request_data (endpoint : string) (w : world) :
  fst (make_api_request remote endpoint w) = api_data endpoint.
Proof.
  unfold api_data, make_api_request.
  destruct (remote (BASE_URL +:+ endpoint)) as [e|s t [e|d]];
    repeat case_match; reflexivity.
Qed.

Lemma make_api_request_world (page : Z) (w : world) :
  scanned [page] w (snd (make_api_request remote (list_endpoint page) w)).
Proof.
  unfold scanned, make_api_request, page_url.
  destruct (remote (BASE_URL +:+ list_endpoint page)) as [e|s t [e|d]];
    repeat case_match; simpl; auto.
Qed.

Lemma scanned_cons (p : Z) (ps : list Z) (w1 w2 w3 : world) :
  scanned [p] w1 w2 → scanned ps w2 w3 → scanned (p :: ps) w1 w3.
Proof.
  intros (R1 & C1 & O1) (R2 & C2 & O2). unfold scanned.
  rewrite R2, R1, C2, C1, O2, O1, <- app_assoc. auto.
Qed.

Lemma collected_O (search_term : string) (first : Z) :
  collected search_term first 0 = [].
Proof. reflexivity. Qed.

Lemma collected_S (search_term : string) (first : Z) (count : nat) :
  collected search_term first (S count)
  = filter (λ item, matches search_term item = true) (page_listings first)
    ++ collected search_term (first + 1) count.
Proof. unfold collected. cbn [pages_from map concat]. apply filter_app. Qed.

(** One turn of either loop: the page is fetched, and the loop goes on
    exactly when it has listings. *)
Lemma scan_fetch (page : Z) (w : world) :
  ∃ w', make_api_request remote (list_endpoint page) w
        = (api_data (list_endpoint page), w') ∧
        scanned [page] w w'.
Proof.
  exists (snd (make_api_request remote (list_endpoint page) w)). split.
  - rewrite <- (make_api_request_data (list_endpoint page) w).
    destruct (make_api_request remote (list_endpoint page) w); reflexivity.
  - apply make_api_request_world.
Qed.

Lemma page_listings_nil (page : Z) :
  page_listings page = [] ↔
  auctions_of (api_data (list_endpoint page)) = None ∨
  auctions_of (api_data (list_endpoint page)) = Some [].
Proof.
  unfold page_listings.
  destruct (auctions_of (api_data (list_endpoint page))) as [[|x l]|]; simpl;
    split; intros; try tauto; try discriminate; destruct H; discriminate.
Qed.

Lemma page_listings_cons (page : Z) (x : listing) (l : list listing) :
  auctions_of (api_data (list_endpoint page)) = Some (x :: l) →
  page_listings page = x :: l.
Proof. unfold page_listings. intros ->. reflexivity. Qed.

Lemma price_scan_ends (search_term : string) (n : nat) :
  ∀ (page : Z) (acc : list listing) (w : world) (fuel : nat),
    (∀ i, (i < n)%nat → page_listings (page + Z.of_nat i) ≠ []) →
    page_listings (page + Z.of_nat n) = [] →
    (n < fuel)%nat →
    ∃ w', price_scan remote fuel search_term page acc w
          = Some (acc ++ collected search_term page n, w') ∧
          scanned (pages_from page (S n)) w w'.
Proof.
  induction n as [|n IH]; intros page acc w fuel Hfull Hend Hfuel;
    (destruct fuel as [|fuel]; [lia|]); cbn [price_scan];
    destruct (scan_fetch page w) as (w1 & -> & Hw1).
  - rewrite Z.add_0_r in Hend. apply page_listings_nil in Hend.
    exists w1. rewrite collected_O, app_nil_r.
    split; [|exact Hw1]. destruct Hend as [-> | ->]; reflexivity.
  - pose proof (Hfull 0%nat ltac:(lia)) as H0. rewrite Z.add_0_r in H0.
    destruct (auctions_of (api_data (list_endpoint page)))
      as [[|x l]|] eqn:E.
    + exfalso. apply H0, page_listings_nil. auto.
    + destruct (IH (page + 1)
                  (acc ++ filter (λ item, matches search_term item = true) (x :: l))
                  w1 fuel) as (w2 & Hrun & Hw2).
      * intros i Hi. replace (page + 1 + Z.of_nat i)
          with (page + Z.of_nat (S i)) by lia. apply Hfull. lia.
      * replace (page + 1 + Z.of_nat n) with (page + Z.of_nat (S n)) by lia.
        exact Hend.
      * lia.
      * exists w2. rewrite Hrun, collected_S, (page_listings_cons _ _ _ E).
        rewrite app_assoc. split; [reflexivity|].
        eapply scanned_cons; eassumption.
    + exfalso. apply H0, page_listings_nil. auto.
Qed.

Lemma price_scan_diverges (search_term : string) (fuel : nat) :
  ∀ (page : Z) (acc : list listing) (w : world),
    (∀ i : nat, page_listings (page + Z.of_nat i) ≠ []) →
    price_scan remote fuel search_term page acc w = None.
Proof.
  induction fuel as [|fuel IH]; intros page acc w Hfull; [reflexivity|].
  cbn [price_scan]. destruct (scan_fetch page w) as (w1 & -> & Hw1).
  pose proof (Hfull 0%nat) as H0. rewrite Z.add_0_r in H0.
  destruct (auctions_of (api_data (list_endpoint page))) as [[|x l]|] eqn:E.
  - exfalso. apply H0, page_listings_nil. auto.
  - apply IH. intros i.
    replace (page + 1 + Z.of_nat i) with (page + Z.of_nat (S i)) by lia.
    apply Hfull.
  - exfalso. apply H0, page_listings_nil. auto.
Qed.

(** While the listing ends before the cap, the two loops coincide. *)
Lemma ah_scan_price_scan (search_term : string) (n : nat) :
  ∀ (page : Z) (acc : list listing) (w : world) (fuel : nat),
    (∀ i, (i < n)%nat → page_listings (page + Z.of_nat i) ≠ []) →
    page_listings (page + Z.of_nat n) = [] →
    page + Z.of_nat n <= 100 →
    ah_scan remote fuel search_term page acc w
    = price_scan remote fuel search_term page acc w.
Proof.
  induction n as [|n IH]; intros page acc w fuel Hfull Hend Hcap;
    (destruct fuel as [|fuel]; [reflexivity|]); cbn [price_scan ah_scan];
    destruct (scan_fetch page w) as (w1 & -> & Hw1).
  - rewrite Z.add_0_r in Hend. apply page_listings_nil in Hend.
    destruct Hend as [-> | ->]; reflexivity.
  - destruct (auctions_of (api_data (list_endpoint page)))
      as [[|x l]|] eqn:E; try reflexivity.
    destruct (page + 1 >? 100) eqn:Hgt; [lia|].
    apply IH.
    + intros i Hi. replace (page + 1 + Z.of_nat i)
        with (page + Z.of_nat (S i)) by lia. apply Hfull. lia.
    + replace (page + 1 + Z.of_nat n) with (page + Z.of_nat (S n)) by lia.
      exact Hend.
    + lia.
Qed.

(** The capped loop always comes back: it stops at the first page
    without listings or after page 100, whichever is first. *)
Lemma ah_scan_spec (search_term : string) (fuel : nat) :
  ∀ (page : Z) (acc : list listing) (w : world),
    1 <= page <= 100 →
    (Z.to_nat (101 - page) ≤ fuel)%nat →
    ∃ (k : nat) (w' : world),
      ah_scan remote fuel search_term page acc w
      = Some (acc ++ collected search_term page k, w') ∧
      page + Z.of_nat k <= 101 ∧
      (∀ i, (i < k)%nat → page_listings (page + Z.of_nat i) ≠ []) ∧
      (page + Z.of_nat k = 101 ∨ page_listings (page + Z.of_nat k) = []) ∧
      scanned (pages_from page
                 (if decide (page + Z.of_nat k = 101) then k else S k)) w w'.
Proof.
  induction fuel as [|fuel IH]; intros page acc w Hpage Hfuel; [lia|].
  cbn [ah_scan]. destruct (scan_fetch page w) as (w1 & -> & Hw1).
  assert (∀ l, auctions_of (api_data (list_endpoint page)) = l →
               (l = None ∨ l = Some []) →
               ∃ (k : nat) (w' : world),
                 Some (acc, w1) = Some (acc ++ collected search_term page k, w') ∧
                 page + Z.of_nat k <= 101 ∧
                 (∀ i, (i < k)%nat → page_listings (page + Z.of_nat i) ≠ []) ∧
                 (page + Z.of_nat k = 101 ∨ page_listings (page + Z.of_nat k) = []) ∧
                 scanned (pages_from page
                   (if decide (page + Z.of_nat k = 101) then k else S k)) w w')
    as Hstop.
  { intros l El Hl. exists 0%nat, w1.
    rewrite collected_O, app_nil_r, Z.add_0_r.
    split; [reflexivity|]. split; [lia|]. split; [intros; lia|]. split.
    - right. apply page_listings_nil. rewrite El. exact Hl.
    - rewrite decide_False by lia. exact Hw1. }
  destruct (auctions_of (api_data (list_endpoint page))) as [[|x l]|] eqn:E.
  - apply (Hstop _ eq_refl). auto.
  - pose proof (page_listings_cons _ _ _ E) as Hx.
    destruct (page + 1 >? 100) eqn:Hgt.
    + exists 1%nat, w1. rewrite collected_S, collected_O, app_nil_r, Hx.
      assert (page = 100) as -> by lia.
      split; [reflexivity|]. split; [lia|]. split; [|split; [left; lia|]].
      * intros i Hi. assert (i = 0%nat) as -> by lia.
        rewrite Z.add_0_r, Hx. discriminate.
      * rewrite decide_True by lia. exact Hw1.
    + destruct (IH (page + 1)
                  (acc ++ filter (λ item, matches search_term item = true) (x :: l))
                  w1 ltac:(lia) ltac:(lia))
        as (k & w2 & Hrun & Hk & Hfull & Hend & Hw2).
      exists (S k), w2. rewrite Hrun, collected_S, Hx, app_assoc.
      replace (page + Z.of_nat (S k)) with (page + 1 + Z.of_nat k) by lia.
      split; [reflexivity|]. split; [lia|].
      split; [|split; [exact Hend|]].
      * intros i Hi. destruct i as [|i].
        -- rewrite Z.add_0_r, Hx. discriminate.
        -- replace (page + Z.of_nat (S i)) with (page + 1 + Z.of_nat i) by lia.
           apply Hfull. lia.
      * destruct (decide (page + 1 + Z.of_nat k = 101));
          (eapply scanned_cons; [exact Hw1 | exact Hw2]).
  - apply (Hstop _ eq_refl). auto.
Qed.

End ScanFacts.

(** ** The page renderer *)

Section RendererFacts.

Lemma slice_nonneg {A} (l : list A) (a b : Z) :
  0 <= a → a <= b →
  slice l a b = take (Z.to_nat (b - a)) (drop (Z.to_nat a) l).
Proof.
  intros Ha Hab. unfold slice.
  destruct (Z.ltb_spec a 0) as [?|_]; [lia|].
  destruct (Z.ltb_spec b 0) as [?|_]; [lia|].
  destruct (Z.le_gt_cases (Z.of_nat (length l)) a) as [Hout|Hin].
  - rewrite !drop_ge by lia. rewrite !take_nil. reflexivity.
  - rewrite (Z.min_l a) by lia.
    destruct (Z.le_gt_cases b (Z.of_nat (length l))) as [Hb|Hb].
    + rewrite Z.min_l by lia. reflexivity.
    + rewrite Z.min_r by lia.
      rewrite !take_ge; [reflexivity | |]; rewrite length_drop; lia.
Qed.

Lemma page_items_nonneg (sorted_items : list listing) (page_index : Z) :
  0 <= page_index →
  page_items sorted_items page_index
  = take 10 (drop (Z.to_nat (page_index * 10)) sorted_items).
Proof.
  intros Hp. unfold page_items, ITEMS_PER_PAGE.
  rewrite slice_nonneg by lia.
  replace (page_index * 10 + 10 - page_index * 10) with 10 by lia.
  reflexivity.
Qed.

Lemma has_previous_build (search_id search_term : string)
    (sorted_items : list listing) (page_index : Z) :
  has_previous (snd (build_ah_page search_id search_term sorted_items page_index))
  = (page_index >? 0).
Proof.
  unfold build_ah_page, page_buttons, has_previous, has_button.
  cbn [snd concat]. rewrite app_nil_r.
  destruct (page_index >? 0);
    destruct (page_index * ITEMS_PER_PAGE + ITEMS_PER_PAGE
              <? Z.of_nat (length sorted_items)); reflexivity.
Qed.

Lemma has_next_build (search_id search_term : string)
    (sorted_items : list listing) (page_index : Z) :
  has_next (snd (build_ah_page search_id search_term sorted_items page_index))
  = (page_index * 10 + 10 <? Z.of_nat (length sorted_items)).
Proof.
  unfold build_ah_page, page_buttons, has_next, has_button, ITEMS_PER_PAGE.
  cbn [snd concat]. rewrite app_nil_r.
  destruct (page_index >? 0);
    destruct (page_index * 10 + 10 <? Z.of_nat (length sorted_items));
    reflexivity.
Qed.

Lemma page_items_length (sorted_items : list listing) (page_index : Z) :
  0 <= page_index →
  length (page_items sorted_items page_index)
  = Nat.min 10 (length sorted_items - Z.to_nat (page_index * 10)).
Proof.
  intros Hp. rewrite page_items_nonneg by exact Hp.
  rewrite length_take, length_drop. reflexivity.
Qed.

End RendererFacts.

(** C3. For a page index that is not negative, the renderer shows the
    items at positions [page_index*10, page_index*10+10) of the sorted
    sequence, one line each under the header; the "previous" control is
    there exactly when [page_index > 0] and the "next" control exactly
    when [page_index*10+10] is below the item count. With 25 items,
    page 0 has 10 items and only "next", page 1 has 10 items and both
    controls, page 2 has 5 items and only "previous". *)
Theorem build_ah_page_paging (search_id search_term : string)
    (sorted_items : list listing) (page_index : Z) :
  0 <= page_index →
  let shown := take 10 (drop (Z.to_nat (page_index * 10)) sorted_items) in
  let page i := build_ah_page search_id search_term sorted_items i in
  page_items sorted_items page_index = shown ∧
  fst (page page_index)
  = join newline (page_header search_term sorted_items page_index
                  :: map render_line shown) ∧
  (has_previous (snd (page page_index)) = true ↔ page_index > 0) ∧
  (has_next (snd (page page_index)) = true
   ↔ page_index * 10 + 10 < Z.of_nat (length sorted_items)) ∧
  (length sorted_items = 25%nat →
   (length (page_items sorted_items 0) = 10%nat ∧
    has_previous (snd (page 0)) = false ∧ has_next (snd (page 0)) = true) ∧
   (length (page_items sorted_items 1) = 10%nat ∧
    has_previous (snd (page 1)) = true ∧ has_next (snd (page 1)) = true) ∧
   (length (page_items sorted_items 2) = 5%nat ∧
    has_previous (snd (page 2)) = true ∧ has_next (snd (page 2)) = false)).
Proof.
  intros Hp shown page. subst page. cbv beta.
  split; [apply page_items_nonneg, Hp|].
  split.
  { unfold build_ah_page, page_text. cbn [fst].
    rewrite page_items_nonneg by exact Hp. reflexivity. }
  rewrite has_previous_build, has_next_build.
  split; [rewrite Z.gtb_lt; lia|].
  split; [rewrite Z.ltb_lt; lia|].
  intros Hlen. rewrite !has_previous_build, !has_next_build.
  rewrite !page_items_length by lia. rewrite Hlen.
  repeat split; reflexivity.
Qed.

Lemma build_ah_page_paging_witness :
  let items := map sample_listing [5; 7; 9; 11; 13; 15; 17; 19; 21; 23; 25; 27] in
  page_items items 1 = map sample_listing [25; 27] ∧
  has_previous (snd (build_ah_page "id" "sword" items 1)) = true ∧
  ¬ has_next (snd (build_ah_page "id" "sword" items 1)) = true.
Proof.
  intros items.
  destruct (build_ah_page_paging "id" "sword" items 1 ltac:(lia))
    as (Hitems & _ & Hprev & Hnext & _).
  split; [exact Hitems|].
  split; [apply Hprev; lia|].
  intros H. apply Hnext in H. vm_compute in H. discriminate.
Defined.

(** C8 (as amended). When the slice starts at or beyond the end of the
    result set, the renderer still returns a page: it has no items, its
    text is the header alone and it has no "next" control; the
    "previous" control is there exactly when [page_index > 0]. *)
Theorem build_ah_page_out_of_range (search_id search_term : string)
    (sorted_items : list listing) (page_index : Z) :
  Z.of_nat (length sorted_items) <= page_index * ITEMS_PER_PAGE →
  let page := build_ah_page search_id search_term sorted_items page_index in
  page_items sorted_items page_index = [] ∧
  fst page = page_header search_term sorted_items page_index ∧
  has_next (snd page) = false ∧
  has_previous (snd page) = (page_index >? 0).
Proof.
  intros Hout page. subst page. unfold ITEMS_PER_PAGE in Hout.
  assert (page_items sorted_items page_index = []) as Hnil.
  { rewrite page_items_nonneg by lia. rewrite drop_ge by lia. reflexivity. }
  split; [exact Hnil|].
  split.
  { unfold build_ah_page, page_text. cbn [fst]. rewrite Hnil. reflexivity. }
  rewrite has_next_build, has_previous_build.
  split; [apply Z.ltb_ge; lia | reflexivity].
Qed.

Lemma build_ah_page_out_of_range_witness :
  let items := map sample_listing [5; 7; 9] in
  page_items items 1 = [] ∧
  has_next (snd (build_ah_page "id" "sword" items 1)) = false ∧
  has_previous (snd (build_ah_page "id" "sword" items 1)) = true.
Proof.
  intros items.
  destruct (build_ah_page_out_of_range "id" "sword" items 1
              ltac:(unfold ITEMS_PER_PAGE; simpl; lia))
    as (Hitems & _ & Hnext & Hprev).
  repeat split; assumption.
Defined.

(** C8, counterexample: on page 3 of a 25-item result set the slice is
    empty, yet the "previous" control is emitted; the two controls are
    not both suppressed. *)
Lemma out_of_range_keeps_previous :
  ¬ (∀ (search_id search_term : string) (sorted_items : list listing)
       (page_index : Z),
       Z.of_nat (length sorted_items) <= page_index * ITEMS_PER_PAGE →
       let page := build_ah_page search_id search_term sorted_items page_index in
       has_previous (snd page) = false ∧ has_next (snd page) = false).
Proof.
  intros H.
  destruct (H "id" "sword" (replicate 25 (sample_listing 100)) 3
              ltac:(unfold ITEMS_PER_PAGE; simpl; lia)) as [Hprev _].
  vm_compute in Hprev. discriminate.
Qed.

(** ** The callback router *)

Section RouterFacts.

Lemma button_handler_chat_data (data : string) (w : world) :
  chat_data (final_world (button_handler data w)) = chat_data w.
Proof.
  unfold button_handler.
  destruct (split ":" data) as [|command [|search_id [|page_index_str [|? ?]]]];
    try reflexivity.
  destruct (int_of_str page_index_str) as [page_index|]; [|reflexivity].
  destruct (String.eqb command "ah"); [|reflexivity].
  destruct (chat_data (send AnswerQuery w) !! search_id); reflexivity.
Qed.

Lemma button_handler_outbox (data : string) (w : world) :
  outbox (final_world (button_handler data w))
  = outbox w ++ emitted data (chat_data w).
Proof.
  unfold button_handler, emitted.
  change (chat_data (send AnswerQuery w)) with (chat_data w).
  destruct (split ":" data) as [|command [|search_id [|page_index_str [|? ?]]]];
    try reflexivity.
  destruct (int_of_str page_index_str) as [page_index|]; [|reflexivity].
  destruct (String.eqb command "ah"); [|reflexivity].
  destruct (chat_data w !! search_id) as [cached_data|];
    unfold build_ah_page; cbn [final_world outbox send fst snd];
    rewrite <- app_assoc; reflexivity.
Qed.

End RouterFacts.

(** C9. Rendering is repeatable. Handling the same navigation token
    twice in a row leaves the cache as it was and hands the chat
    platform the same events both times; for a well-formed token whose
    search is cached that event is the edit carrying the text and the
    keyboard (controls and their targets) that [build_ah_page] yields
    for the cached result set and the requested page. *)
Theorem render_twice_identical (data : string) (w : world) :
  let first := final_world (button_handler data w) in
  let second := final_world (button_handler data first) in
  ∃ events : list event,
    outbox first = outbox w ++ events ∧
    outbox second = outbox first ++ events ∧
    chat_data first = chat_data w ∧
    chat_data second = chat_data w ∧
    (∀ search_id page_index cached_data,
       well_formed_token data search_id page_index →
       chat_data w !! search_id = Some cached_data →
       let page :=
         build_ah_page search_id (term cached_data) (results cached_data)
           page_index in
       events = [AnswerQuery; EditMessageText (fst page) (Some (snd page))]).
Proof.
  intros first second. subst first second.
  exists (emitted data (chat_data w)).
  rewrite !button_handler_outbox, !button_handler_chat_data.
  repeat split.
  intros search_id page_index cached_data (pstr & Hsplit & Hint) Hcached page.
  unfold emitted. rewrite Hsplit, Hint, Hcached. reflexivity.
Qed.

Lemma render_twice_identical_witness :
  let w := World [] [] sample_cache [] in
  let page := build_ah_page "id" "sword" (map sample_listing [100; 100; 300; 500]) 0 in
  outbox (final_world (button_handler "ah:id:0"
            (final_world (button_handler "ah:id:0" w))))
  = [AnswerQuery; EditMessageText (fst page) (Some (snd page));
     AnswerQuery; EditMessageText (fst page) (Some (snd page))].
Proof.
  intros w page.
  destruct (render_twice_identical "ah:id:0" w)
    as (events & H1 & H2 & _ & _ & Hev).
  rewrite H2, H1.
  rewrite (Hev "id" 0 (CacheEntry "sword" (map sample_listing [100; 100; 300; 500]))).
  - reflexivity.
  - exists "0". split; reflexivity.
  - reflexivity.
Defined.

(** C5, at the failing input: a token with three fields whose page
    field is not an integer makes the handler raise [ValueError]; the
    conversion sits after the [try] block that guards the split. *)
Theorem button_handler_bad_page_raises (w : world) :
  button_handler "ah:abc:xyz" w = Raised ValueError (send AnswerQuery w).
Proof. reflexivity. Qed.

(** A token that does not split into three fields is dropped: only the
    callback acknowledgement goes out. *)
Lemma button_handler_wrong_arity (data : string) (w : world) :
  length (split ":" data) ≠ 3%nat →
  button_handler data w = Returned (send AnswerQuery w).
Proof.
  unfold button_handler. intros Hlen.
  destruct (split ":" data) as [|a [|b [|c [|d l]]]]; try reflexivity.
  exfalso. apply Hlen. reflexivity.
Qed.

(** C7. A well-formed token whose search id is not in the cache makes
    the handler answer with the "expired or invalid" edit, whose text is
    spelled out below, and return: nothing is rendered, the cache, the
    log and the request trace are untouched, no exception is raised. *)
Theorem button_handler_cache_miss (data search_id : string) (page_index : Z)
    (w : world) :
  well_formed_token data search_id page_index →
  chat_data w !! search_id = None →
  ∃ w',
    button_handler data w = Returned w' ∧
    outbox w'
    = outbox w ++
      [AnswerQuery;
       EditMessageText
         "This search has expired or is invalid\. Please run the command again\."
         None] ∧
    chat_data w' = chat_data w ∧
    log w' = log w ∧
    requests w' = requests w.
Proof.
  intros (pstr & Hsplit & Hint) Hmiss.
  unfold button_handler. rewrite Hsplit, Hint. cbn [String.eqb].
  change (chat_data (send AnswerQuery w)) with (chat_data w).
  rewrite Hmiss. eexists. split; [reflexivity|].
  cbn [outbox chat_data log requests send]. rewrite <- app_assoc.
  repeat split.
Qed.

Lemma button_handler_cache_miss_witness :
  ∃ w',
    button_handler "ah:gone:2" (World [] [] sample_cache []) = Returned w' ∧
    outbox w'
    = [AnswerQuery;
       EditMessageText
         "This search has expired or is invalid\. Please run the command again\."
         None] ∧
    chat_data w' = sample_cache.
Proof.
  destruct (button_handler_cache_miss "ah:gone:2" "gone" 2
              (World [] [] sample_cache []))
    as (w' & Hrun & Hout & Hcache & _).
  - exists "2". split; reflexivity.
  - vm_compute. reflexivity.
  - exists w'. repeat split; assumption.
Defined.

(** ** The API client *)

(** C6. [make_api_request] performs one GET. A 200 or 500 response
    whose body parses is returned as the payload and nothing is logged;
    a 404 gives no data and nothing is logged; any other status gives no
    data and one logged "API Error" record; a failed request, and a 200
    or 500 response whose body does not parse, give no data and one
    logged "Failed to call API endpoint" record. *)
Theorem make_api_request_contract (remote : string → http_outcome)
    (endpoint : string) (w : world) :
  let run := make_api_request remote endpoint w in
  let reply := remote (BASE_URL +:+ endpoint) in
  requests (snd run) = requests w ++ [BASE_URL +:+ endpoint] ∧
  (∀ status text data,
     reply = Response status text (inr data) →
     status = 200 ∨ status = 500 →
     fst run = Some data ∧ log (snd run) = log w) ∧
  (∀ text json,
     reply = Response 404 text json →
     fst run = None ∧ log (snd run) = log w) ∧
  (∀ status text json,
     reply = Response status text json →
     status ≠ 200 → status ≠ 500 → status ≠ 404 →
     fst run = None ∧
     log (snd run)
     = log w ++ [LogRecord WARNING
                   ("API Error on " +:+ endpoint +:+ ": "
                    +:+ str_of_int status +:+ " - " +:+ text)]) ∧
  (∀ err,
     reply = RequestFailed err →
     fst run = None ∧
     log (snd run)
     = log w ++ [LogRecord ERROR
                   ("Failed to call API endpoint " +:+ endpoint
                    +:+ ": " +:+ err)]) ∧
  (∀ status text err,
     reply = Response status text (inl err) →
     status = 200 ∨ status = 500 →
     fst run = None ∧
     log (snd run)
     = log w ++ [LogRecord ERROR
                   ("Failed to call API endpoint " +:+ endpoint
                    +:+ ": " +:+ err)]).
Proof.
  intros run reply. subst run reply. unfold make_api_request.
  split.
  { destruct (remote (BASE_URL +:+ endpoint)) as [e|s t [e|d]];
      repeat case_match; reflexivity. }
  split; [|split; [|split; [|split]]].
  - intros status text data -> [-> | ->]; split; reflexivity.
  - intros text json ->. split; reflexivity.
  - intros status text json -> H200 H500 H404.
    destruct (Z.eqb_spec status 200) as [?|_]; [contradiction|].
    destruct (Z.eqb_spec status 500) as [?|_]; [contradiction|].
    destruct (Z.eqb_spec status 404) as [?|_]; [contradiction|].
    split; reflexivity.
  - intros err ->. split; reflexivity.
  - intros status text err -> [-> | ->]; split; reflexivity.
Qed.

Lemma make_api_request_contract_witness :
  fst (make_api_request sample_remote "/auction/list/3" empty_world) = None ∧
  log (snd (make_api_request sample_remote "/auction/list/3" empty_world))
  = [LogRecord WARNING "API Error on /auction/list/3: 503 - unavailable"].
Proof.
  destruct (make_api_request_contract sample_remote "/auction/list/3" empty_world)
    as (_ & _ & _ & Hother & _).
  apply (Hother 503 "unavailable" (inl "no body")).
  - reflexivity.
  - lia.
  - lia.
  - lia.
Defined.

(** ** Result ordering *)

(** C4. The order of a search result: [sorted] rearranges the matches
    (nothing lost, nothing added) into ascending price order; listings
    with one and the same key keep their remote encounter order; a
    listing without a price has the infinite key, which is above every
    price, so the listings without a price follow all the priced ones,
    in their encounter order. *)
Theorem py_sorted_order (matching_items : list listing) :
  let sorted_items := py_sorted matching_items in
  Permutation matching_items sorted_items ∧
  StronglySorted listing_le sorted_items ∧
  (∀ k : sort_key,
     filter (λ x, price_key x = k) sorted_items
     = filter (λ x, price_key x = k) matching_items) ∧
  (∀ x y : listing,
     has_price x → ¬ has_price y →
     price_key y = Infinity ∧ key_lt (price_key x) (price_key y) = true) ∧
  sorted_items
  = py_sorted (filter has_price matching_items)
    ++ filter (λ x, ¬ has_price x) matching_items.
Proof.
  intros sorted_items. subst sorted_items.
  split; [apply py_sorted_perm|].
  split; [apply py_sorted_sorted|].
  split; [intros k; apply py_sorted_stable|].
  split; [|apply py_sorted_unpriced_last].
  intros x y [p Hp] Hy. unfold price_key. rewrite Hp.
  destruct (price y) eqn:E; [|split; reflexivity].
  exfalso. apply Hy. unfold has_price. rewrite E. eauto.
Qed.

Lemma py_sorted_order_witness :
  py_sorted [sample_listing 500; Listing None None None; sample_listing 100;
             Listing (Some "a") None (Some 100); sample_listing 300]
  = [sample_listing 100; Listing (Some "a") None (Some 100);
     sample_listing 300; sample_listing 500; Listing None None None].
Proof.
  destruct (py_sorted_order
              [sample_listing 500; Listing None None None; sample_listing 100;
               Listing (Some "a") None (Some 100); sample_listing 300])
    as (_ & _ & _ & _ & Hlast).
  rewrite Hlast. reflexivity.
Defined.

(** ** The search commands *)

Section CommandFacts.

Variable remote : string → http_outcome.

Lemma matches_spec (search_term : string) (item : listing) :
  matches search_term item = true ↔
  ∃ a b,
    lower (replace "_" " " (replace "minecraft:" "" (default "" (item_id item))))
    = a +:+ search_term +:+ b.
Proof.
  unfold matches, normalized_name, format_item_id.
  rewrite lower_title. apply contains_spec.
Qed.

Lemma ah_command_result (fuel : nat) (x : string) (args : list string)
    (uuid : string) (w w1 : world) (found : list listing) :
  let search_term := search_term_of (x :: args) in
  ah_scan remote fuel search_term 1 []
    (send (searching_notice search_term "This may take a moment\.\.\.") w)
  = Some (found, w1) →
  ah_command remote fuel (x :: args) uuid w
  = Some match found with
         | [] => send (not_found_reply search_term) w1
         | _ :: _ =>
             let sorted_items := py_sorted found in
             let page := build_ah_page uuid search_term sorted_items 0 in
             send (ReplyText (fst page) (Some (snd page)))
               (store uuid (CacheEntry search_term sorted_items) w1)
         end.
Proof.
  intros search_term Hscan. unfold ah_command. fold search_term.
  rewrite Hscan. destruct found; reflexivity.
Qed.

Lemma price_command_result (fuel : nat) (x : string) (args : list string)
    (w w1 : world) (found : list listing) :
  let search_term := search_term_of (x :: args) in
  price_scan remote fuel search_term 1 []
    (send (searching_notice search_term "This will be very slow\.\.\.") w)
  = Some (found, w1) →
  price_command remote fuel (x :: args) w
  = Some match py_min found with
         | None => send (not_found_reply search_term) w1
         | Some lowest_auction =>
             send (ReplyText (lowest_price_text lowest_auction) None) w1
         end.
Proof.
  intros search_term Hscan. unfold price_command. fold search_term.
  rewrite Hscan. destruct (py_min found); reflexivity.
Qed.

Lemma scanned_after_notice (pages : list Z) (e : event) (w w1 : world) :
  scanned pages (send e w) w1 →
  requests w1 = requests w ++ map page_url pages ∧
  chat_data w1 = chat_data w ∧
  outbox w1 = outbox w ++ [e].
Proof. intros (Hr & Hc & Ho). repeat split; assumption. Qed.

End CommandFacts.

(** C1. The exhaustive search ([/ah]) always comes back, given fuel for
    100 turns. It fetches pages 1, 2, ... in ascending order and stops
    at the first page without listings or after page 100, so at most 100
    requests are made. With [k] the number of pages that were read, the
    result is the stable price-sorted sequence of the listings of pages
    1..k whose normalised name (every "minecraft:" removed, underscores
    turned into spaces, lower-cased) contains the search term. A
    non-empty result is cached under the fresh search id and its first
    page is sent; an empty one is answered by the "could not find"
    reply. *)
Theorem ah_command_exhaustive (remote : string → http_outcome) (fuel : nat)
    (args : list string) (uuid : string) (w : world) :
  args ≠ [] →
  (100 ≤ fuel)%nat →
  let search_term := search_term_of args in
  let notice := searching_notice search_term "This may take a moment\.\.\." in
  ∃ (k : nat) (w' : world),
    ah_command remote fuel args uuid w = Some w' ∧
    (k ≤ 100)%nat ∧
    (∀ i, (i < k)%nat → page_listings remote (1 + Z.of_nat i) ≠ []) ∧
    (k = 100%nat ∨ page_listings remote (1 + Z.of_nat k) = []) ∧
    requests w'
    = requests w ++ map page_url (pages_from 1 (Nat.min (S k) 100)) ∧
    (length (requests w') ≤ length (requests w) + 100)%nat ∧
    (∀ item,
       matches search_term item = true ↔
       ∃ a b,
         lower (replace "_" " "
                  (replace "minecraft:" "" (default "" (item_id item))))
         = a +:+ search_term +:+ b) ∧
    let found :=
      filter (λ item, matches search_term item = true)
             (concat (map (page_listings remote) (pages_from 1 k))) in
    let sorted_items := py_sorted found in
    Permutation found sorted_items ∧
    StronglySorted listing_le sorted_items ∧
    match found with
    | [] =>
        chat_data w' = chat_data w ∧
        outbox w' = outbox w ++ [notice; not_found_reply search_term]
    | _ :: _ =>
        let page := build_ah_page uuid search_term sorted_items 0 in
        chat_data w'
        = <[uuid := CacheEntry search_term sorted_items]> (chat_data w) ∧
        outbox w'
        = outbox w ++ [notice; ReplyText (fst page) (Some (snd page))]
    end.
Proof.
  intros Hargs Hfuel search_term notice.
  destruct args as [|x args]; [contradiction|].
  destruct (ah_scan_spec remote search_term fuel 1 [] (send notice w)
              ltac:(lia) ltac:(simpl; lia))
    as (k & w1 & Hscan & Hk & Hfull & Hend & Hw1).
  rewrite app_nil_l in Hscan.
  assert ((if decide (1 + Z.of_nat k = 101) then k else S k)
          = Nat.min (S k) 100) as Hcount.
  { destruct (decide (1 + Z.of_nat k = 101)); lia. }
  rewrite Hcount in Hw1.
  apply scanned_after_notice in Hw1 as (Hreq & Hcache & Hout).
  eexists k, _. split; [apply ah_command_result; exact Hscan|].
  split; [lia|]. split; [exact Hfull|].
  split; [destruct Hend; [left; lia | right; assumption]|].
  assert (∀ w2, requests w2 = requests w1 →
                requests w2
                = requests w ++ map page_url (pages_from 1 (Nat.min (S k) 100)) ∧
                (length (requests w2) ≤ length (requests w) + 100)%nat)
    as Htrace.
  { intros w2 ->. rewrite Hreq. split; [reflexivity|].
    rewrite length_app, length_map.
    assert (∀ c p, length (pages_from p c) = c) as Hlen.
    { induction c as [|c IH]; intros p; simpl; [|rewrite IH]; reflexivity. }
    rewrite Hlen. lia. }
  unfold collected in *.
  set (found := filter (λ item, matches search_term item = true)
                  (concat (map (page_listings remote) (pages_from 1 k)))) in *.
  assert (requests
            match found with
            | [] => send (not_found_reply search_term) w1
            | _ :: _ =>
                let sorted_items := py_sorted found in
                let page := build_ah_page uuid search_term sorted_items 0 in
                send (ReplyText (fst page) (Some (snd page)))
                  (store uuid (CacheEntry search_term sorted_items) w1)
            end = requests w1) as Hsame.
  { destruct found; reflexivity. }
  destruct (Htrace _ Hsame) as [Ht1 Ht2].
  split; [exact Ht1|]. split; [exact Ht2|].
  split; [intros item; apply matches_spec|].
  cbv zeta.
  split; [apply py_sorted_perm|]. split; [apply py_sorted_sorted|].
  destruct found as [|y found'].
  - cbn [chat_data outbox send]. rewrite Hcache, Hout, <- app_assoc.
    split; reflexivity.
  - cbn [chat_data outbox send store]. rewrite Hcache, Hout, <- app_assoc.
    split; reflexivity.
Qed.

Lemma ah_command_exhaustive_witness :
  ∃ w',
    ah_command sample_remote 100 ["Diamond"; "SWORD"] "id" empty_world = Some w' ∧
    requests w' = map page_url [1; 2; 3] ∧
    chat_data w'
    = {[ "id" := CacheEntry "diamond sword"
                   (map sample_listing [50; 100; 100; 300; 500]) ]}.
Proof.
  destruct (ah_command_exhaustive sample_remote 100 ["Diamond"; "SWORD"] "id"
              empty_world ltac:(discriminate) ltac:(lia))
    as (k & w' & Hrun & _).
  exists w'. split; [exact Hrun|].
  vm_compute in Hrun. injection Hrun as <-. split; reflexivity.
Defined.

(** C2. The minimum search ([/price]) has no page cap. Whatever the
    number [n] of pages with listings before the first page without,
    the scan reads pages 1..n+1 and stops there, and, when something
    matched, answers with the first listing of least price among all the
    matches of pages 1..n: every match met before it is strictly dearer
    and no match after it is cheaper. The answer is the "Lowest Price
    Found" message showing that listing's item name, seller and price.
    When every page has listings the scan never ends, for no amount of
    fuel. *)
Theorem price_command_minimum (remote : string → http_outcome)
    (args : list string) (w : world) :
  args ≠ [] →
  let search_term := search_term_of args in
  let notice := searching_notice search_term "This will be very slow\.\.\." in
  (∀ n fuel : nat,
     (∀ i, (i < n)%nat → page_listings remote (1 + Z.of_nat i) ≠ []) →
     page_listings remote (1 + Z.of_nat n) = [] →
     (n < fuel)%nat →
     ∃ w',
       price_command remote fuel args w = Some w' ∧
       requests w' = requests w ++ map page_url (pages_from 1 (S n)) ∧
       let found :=
         filter (λ item, matches search_term item = true)
                (concat (map (page_listings remote) (pages_from 1 n))) in
       match found with
       | [] => outbox w' = outbox w ++ [notice; not_found_reply search_term]
       | _ :: _ =>
           ∃ pre lowest post,
             found = pre ++ lowest :: post ∧
             Forall (λ x, key_lt (price_key lowest) (price_key x) = true) pre ∧
             Forall (λ x, key_le (price_key lowest) (price_key x)) post ∧
             py_min found = Some lowest ∧
             outbox w'
             = outbox w ++
               [notice;
                ReplyText
                   ("💎 *Lowest Price Found*" +:+ newline +:+ newline
                    +:+ "Item: `"
                    +:+ escape_markdown
                          (format_item_id (default "Unknown" (item_id lowest)))
                    +:+ "`" +:+ newline
                    +:+ "Seller: *"
                    +:+ escape_markdown (default "Unknown" (seller_name lowest))
                    +:+ "*" +:+ newline
                    +:+ "Price: \`$"
                    +:+ escape_markdown
                          (format_thousands (default 0 (price lowest)))
                    +:+ "\`")
                   None]
       end) ∧
  ((∀ i : nat, page_listings remote (1 + Z.of_nat i) ≠ []) →
   ∀ fuel : nat, price_command remote fuel args w = None).
Proof.
  intros Hargs search_term notice.
  destruct args as [|x args]; [contradiction|].
  split.
  - intros n fuel Hfull Hend Hfuel.
    destruct (price_scan_ends remote search_term n 1 [] (send notice w) fuel
                Hfull Hend Hfuel) as (w1 & Hscan & Hw1).
    rewrite app_nil_l in Hscan.
    apply scanned_after_notice in Hw1 as (Hreq & Hcache & Hout).
    eexists. split; [apply price_command_result; exact Hscan|].
    unfold collected.
    set (found := filter (λ item, matches search_term item = true)
                    (concat (map (page_listings remote) (pages_from 1 n)))).
    split.
    { destruct (py_min found); cbn [requests send]; exact Hreq. }
    cbv zeta. destruct (py_min found) as [lowest|] eqn:Emin.
    + destruct (py_min_first_least _ _ Emin) as (pre & post & Hsplit & Hpre & Hpost).
      destruct found as [|y found']; [discriminate|].
      exists pre, lowest, post.
      cbn [outbox send]. rewrite Hout, <- app_assoc.
      split; [exact Hsplit|]. split; [exact Hpre|]. split; [exact Hpost|].
      split; reflexivity.
    + apply py_min_None in Emin. rewrite Emin.
      cbn [outbox send]. rewrite Hout, <- app_assoc. reflexivity.
  - intros Hfull fuel. unfold price_command. fold search_term. fold notice.
    rewrite price_scan_diverges by exact Hfull. reflexivity.
Qed.

Lemma sample_remote_full (i : nat) :
  (i < 2)%nat → page_listings sample_remote (1 + Z.of_nat i) ≠ [].
Proof.
  intros Hi. destruct i as [|[|i]]; [vm_compute; discriminate ..|lia].
Defined.

Lemma price_command_minimum_witness :
  ∃ w',
    price_command sample_remote 3 ["Diamond"; "SWORD"] empty_world = Some w' ∧
    requests w' = map page_url [1; 2; 3] ∧
    last (outbox w')
    = Some (ReplyText "💎 *Lowest Price Found*

Item: `Diamond Sword`
Seller: *Steve*
Price: \`$50\`" None).
Proof.
  destruct (price_command_minimum sample_remote ["Diamond"; "SWORD"] empty_world
              ltac:(discriminate)) as [Hends _].
  destruct (Hends 2%nat 3%nat sample_remote_full eq_refl ltac:(lia))
    as (w' & Hrun & Hreq & Hfound).
  exists w'. split; [exact Hrun|]. split; [exact Hreq|].
  cbv zeta in Hfound.
  destruct (filter (λ item, matches (search_term_of ["Diamond"; "SWORD"]) item = true)
              (concat (map (page_listings sample_remote) (pages_from 1 2))))
    as [|y found'] eqn:Efound; [vm_compute in Efound; discriminate|].
  destruct Hfound as (pre & lowest & post & _ & _ & _ & Hmin & Hout).
  rewrite <- Efound in Hmin. vm_compute in Hmin. injection Hmin as <-.
  rewrite Hout. reflexivity.
Defined.

(** C10. When the remote listing ends within the cap (pages 1..n have
    listings, page n+1 has none, n < 100) and something matches, the
    listing the minimum search selects, the [min] of the matches, whose
    item name, seller and price its answer shows, is the first element
    of the sorted sequence the exhaustive search caches. *)
Theorem price_command_head_of_ah (remote : string → http_outcome)
    (fuel n : nat) (args : list string) (uuid : string) (w : world) :
  args ≠ [] →
  (n < 100)%nat →
  (n < fuel)%nat →
  (∀ i, (i < n)%nat → page_listings remote (1 + Z.of_nat i) ≠ []) →
  page_listings remote (1 + Z.of_nat n) = [] →
  let search_term := search_term_of args in
  collected remote search_term 1 n ≠ [] →
  ∃ (lowest : listing) (rest : list listing) (w_price w_ah : world),
    price_command remote fuel args w = Some w_price ∧
    py_min (collected remote search_term 1 n) = Some lowest ∧
    outbox w_price
    = outbox w ++ [searching_notice search_term "This will be very slow\.\.\.";
                   ReplyText
                   ("💎 *Lowest Price Found*" +:+ newline +:+ newline
                    +:+ "Item: `"
                    +:+ escape_markdown
                          (format_item_id (default "Unknown" (item_id lowest)))
                    +:+ "`" +:+ newline
                    +:+ "Seller: *"
                    +:+ escape_markdown (default "Unknown" (seller_name lowest))
                    +:+ "*" +:+ newline
                    +:+ "Price: \`$"
                    +:+ escape_markdown
                          (format_thousands (default 0 (price lowest)))
                    +:+ "\`")
                   None] ∧
    ah_command remote fuel args uuid w = Some w_ah ∧
    chat_data w_ah
    = <[uuid := CacheEntry search_term (lowest :: rest)]> (chat_data w) ∧
    py_sorted (collected remote search_term 1 n) = lowest :: rest.
Proof.
  intros Hargs Hcap Hfuel Hfull Hend search_term Hsome.
  destruct args as [|x args]; [contradiction|].
  set (notice_p := searching_notice search_term "This will be very slow\.\.\.").
  set (notice_a := searching_notice search_term "This may take a moment\.\.\.").
  destruct (price_scan_ends remote search_term n 1 [] (send notice_p w) fuel
              Hfull Hend Hfuel) as (wp & Hscan_p & Hwp).
  destruct (price_scan_ends remote search_term n 1 [] (send notice_a w) fuel
              Hfull Hend Hfuel) as (wa & Hscan_a & Hwa).
  rewrite <- (ah_scan_price_scan remote search_term n) in Hscan_a
    by (assumption || lia).
  rewrite app_nil_l in Hscan_p, Hscan_a.
  apply scanned_after_notice in Hwp as (_ & _ & Hout).
  apply scanned_after_notice in Hwa as (_ & Hcache & _).
  pose proof (head_py_sorted (collected remote search_term 1 n)) as Hhead.
  destruct (py_sorted (collected remote search_term 1 n))
    as [|lowest rest] eqn:Esorted.
  { apply py_sorted_nil_inv in Esorted. contradiction. }
  cbn [head] in Hhead.
  exists lowest, rest. eexists _, _.
  split; [apply price_command_result; exact Hscan_p|].
  split; [symmetry; exact Hhead|].
  rewrite <- Hhead. cbn [outbox send]. rewrite Hout, <- app_assoc.
  split; [reflexivity|].
  split; [apply ah_command_result; exact Hscan_a|].
  destruct (collected remote search_term 1 n) as [|y found'] eqn:Efound;
    [contradiction|].
  cbv zeta. cbn [chat_data send store]. rewrite Esorted, Hcache.
  split; reflexivity.
Qed.

Lemma price_command_head_of_ah_witness :
  ∃ w_price w_ah rest,
    price_command sample_remote 100 ["sword"] empty_world = Some w_price ∧
    last (outbox w_price)
    = Some (ReplyText "💎 *Lowest Price Found*

Item: `Diamond Sword`
Seller: *Steve*
Price: \`$50\`" None) ∧
    ah_command sample_remote 100 ["sword"] "id" empty_world = Some w_ah ∧
    chat_data w_ah !! "id" = Some (CacheEntry "sword" (sample_listing 50 :: rest)).
Proof.
  destruct (price_command_head_of_ah sample_remote 100 2 ["sword"] "id"
              empty_world ltac:(discriminate) ltac:(lia) ltac:(lia)
              sample_remote_full eq_refl ltac:(vm_compute; discriminate))
    as (lowest & rest & w_price & w_ah & Hp & Hmin & Hout & Ha & Hcache & Hsorted).
  vm_compute in Hsorted. injection Hsorted as <- <-.
  eexists w_price, w_ah, _.
  split; [exact Hp|].
  split; [rewrite Hout; reflexivity|].
  split; [exact Ha|].
  rewrite Hcache. vm_compute. reflexivity.
Defined.

(** * Further properties of the helpers and handlers *)

(** ** Escaping *)

Section EscapeFacts.

Lemma escape_markdown_head (s : string) (d : ascii) (rest : string) :
  escape_markdown s = String d rest → mem_char d escape_chars = false.
Proof.
  destruct s as [|c s]; [discriminate|]. cbn [escape_markdown].
  destruct (mem_char c escape_chars) eqn:E; intros [= <- _];
    [reflexivity | exact E].
Qed.

Lemma unescape_escape (s : string) :
  unescape_markdown (escape_markdown s) = s.
Proof.
  induction s as [|c s IH]; [reflexivity|]. cbn [escape_markdown].
  destruct (mem_char c escape_chars) eqn:E.
  - cbn [unescape_markdown]. rewrite E, IH. reflexivity.
  - cbn [unescape_markdown].
    destruct (escape_markdown s) as [|d rest] eqn:Es.
    + destruct s as [|c' s]; [reflexivity|].
      cbn [escape_markdown] in Es.
      destruct (mem_char c' escape_chars); discriminate.
    + rewrite (escape_markdown_head _ _ _ Es), andb_false_r, IH.
      reflexivity.
Qed.

Lemma escape_markdown_length (s : string) :
  String.length (escape_markdown s)
  = (String.length s + reserved_count s)%nat.
Proof.
  induction s as [|c s IH]; [reflexivity|].
  cbn [escape_markdown reserved_count].
  destruct (mem_char c escape_chars); cbn [String.length]; rewrite IH; lia.
Qed.

Lemma reserved_count_zero (s : string) :
  reserved_count s = 0%nat ↔
  ∀ c, mem_char c escape_chars = true → mem_char c s = false.
Proof.
  induction s as [|c s IH]; cbn [reserved_count mem_char].
  - split; reflexivity.
  - destruct (mem_char c escape_chars) eqn:E.
    + split; [discriminate|]. intros H. specialize (H c E).
      rewrite Ascii.eqb_refl in H. discriminate.
    + rewrite IH. split.
      * intros H d Hd. rewrite (H d Hd), orb_false_r.
        destruct (Ascii.eqb_spec d c) as [->|]; [congruence | reflexivity].
      * intros H d Hd. specialize (H d Hd).
        apply orb_false_iff in H. tauto.
Qed.

End EscapeFacts.

(** X1. [escape_markdown] loses nothing: two texts with the same
    escaped form are the same text. *)
Theorem escape_markdown_injective (a b : string) :
  escape_markdown a = escape_markdown b → a = b.
Proof.
  intros H. rewrite <- (unescape_escape a), <- (unescape_escape b), H.
  reflexivity.
Qed.

Lemma escape_markdown_injective_witness :
  replace "_" "_" "diamond_sword" = "diamond_sword".
Proof.
  apply (escape_markdown_injective (replace "_" "_" "diamond_sword")
           "diamond_sword").
  reflexivity.
Defined.

(** X2. Escaping works character by character: the escaped form of a
    concatenation is the concatenation of the escaped forms, and the
    result is longer than the text by the number of reserved
    characters in it. *)
Theorem escape_markdown_app (a b : string) :
  escape_markdown (a +:+ b) = escape_markdown a +:+ escape_markdown b ∧
  String.length (escape_markdown a)
  = (String.length a + reserved_count a)%nat.
Proof.
  split; [|apply escape_markdown_length].
  induction a as [|c a IH]; [reflexivity|].
  rewrite append_cons. cbn [escape_markdown].
  destruct (mem_char c escape_chars); rewrite IH, !append_cons; reflexivity.
Qed.

(** X3. A text is left as it is by [escape_markdown] exactly when it has
    none of the reserved characters. *)
Theorem escape_markdown_fixed_iff (s : string) :
  escape_markdown s = s ↔
  ∀ c, mem_char c escape_chars = true → mem_char c s = false.
Proof.
  rewrite <- reserved_count_zero. split.
  - intros H. pose proof (escape_markdown_length s) as Hlen.
    rewrite H in Hlen. lia.
  - induction s as [|c s IH]; [reflexivity|].
    cbn [reserved_count escape_markdown].
    destruct (mem_char c escape_chars); [discriminate|].
    intros H. rewrite (IH H). reflexivity.
Qed.

Lemma escape_markdown_fixed_iff_witness :
  mem_char "." "Diamond Sword 12,345" = false.
Proof.
  apply (proj1 (escape_markdown_fixed_iff "Diamond Sword 12,345")).
  - reflexivity.
  - reflexivity.
Defined.

(** ** Item names *)

Section ItemNameFacts.

Lemma prefix_nil (s : string) : String.prefix "" s = true.
Proof. destruct s; reflexivity. Qed.

Lemma underscore_to_lower (c : ascii) :
  Ascii.eqb "_" (to_lower c) = Ascii.eqb "_" c.
Proof. destruct c as [[] [] [] [] [] [] [] []]; reflexivity. Qed.

Lemma underscore_to_upper (c : ascii) :
  Ascii.eqb "_" (to_upper c) = Ascii.eqb "_" c.
Proof. destruct c as [[] [] [] [] [] [] [] []]; reflexivity. Qed.

Lemma underscore_title_from (b : bool) (s : string) :
  mem_char "_" (title_from b s) = mem_char "_" s.
Proof.
  revert b. induction s as [|c s IH]; intros b; [reflexivity|].
  cbn [title_from]. destruct (is_cased c); cbn [mem_char]; rewrite IH;
    [|reflexivity].
  destruct b; [rewrite underscore_to_lower | rewrite underscore_to_upper];
    reflexivity.
Qed.

Lemma replace_underscore (s : string) :
  mem_char "_" (replace_from "_" " " 0 s) = false.
Proof.
  induction s as [|c s IH]; [reflexivity|].
  cbn [replace_from String.prefix].
  destruct (ascii_dec "_" c) as [<-|Hne].
  - rewrite prefix_nil. cbn [String.length Nat.pred].
    change (" " +:+ replace_from "_" " " 0 s)
      with (String " " (replace_from "_" " " 0 s)).
    cbn [mem_char]. rewrite IH. reflexivity.
  - cbn [mem_char]. rewrite IH, orb_false_r.
    destruct (Ascii.eqb_spec "_" c); [contradiction | reflexivity].
Qed.

Lemma replace_from_skip (old new a s : string) :
  replace_from old new (String.length a) (a +:+ s)
  = replace_from old new 0 s.
Proof.
  induction a as [|c a IH]; [reflexivity|].
  rewrite append_cons. cbn [String.length replace_from]. exact IH.
Qed.

(** A leading occurrence is replaced first. *)
Lemma replace_prefix (c : ascii) (old new s : string) :
  replace (String c old) new (String c old +:+ s)
  = new +:+ replace (String c old) new s.
Proof.
  assert (String.prefix (String c old) (String c old +:+ s) = true) as Hp.
  { apply prefix_spec. eauto. }
  rewrite append_cons in *. unfold replace. cbn [replace_from].
  rewrite Hp. cbn [String.length Nat.pred].
  rewrite replace_from_skip. reflexivity.
Qed.

End ItemNameFacts.

(** X4. A displayed item name never has an underscore. *)
Theorem format_item_id_no_underscore (item_id : string) :
  mem_char "_" (format_item_id item_id) = false.
Proof.
  unfold format_item_id, title. rewrite underscore_title_from.
  apply replace_underscore.
Qed.

(** X5. A leading ["minecraft:"] does not show in the displayed name,
    nor in the name a search term is matched against. *)
Theorem format_item_id_strips_namespace (rest : string)
    (seller : option string) (p : option Z) :
  format_item_id ("minecraft:" +:+ rest) = format_item_id rest ∧
  normalized_name (Listing (Some ("minecraft:" +:+ rest)) seller p)
  = normalized_name (Listing (Some rest) seller p).
Proof.
  assert (format_item_id ("minecraft:" +:+ rest) = format_item_id rest) as H.
  { unfold format_item_id. rewrite replace_prefix. reflexivity. }
  split; [exact H|].
  unfold normalized_name. cbn [item_id default]. f_equal. exact H.
Qed.

(** ** Search terms *)

Section TermFacts.

Lemma lower_idem (s : string) : lower (lower s) = lower s.
Proof.
  induction s as [|c s IH]; [reflexivity|].
  cbn [lower]. rewrite to_lower_idem, IH. reflexivity.
Qed.

Lemma lower_app (a b : string) : lower (a +:+ b) = lower a +:+ lower b.
Proof.
  induction a as [|c a IH]; [reflexivity|].
  rewrite append_cons. cbn [lower]. rewrite IH, append_cons. reflexivity.
Qed.

Lemma lower_join_space (args : list string) :
  lower (join " " args) = join " " (map lower args).
Proof.
  unfold join. induction args as [|a args IH]; [reflexivity|].
  destruct args as [|b args]; [reflexivity|].
  cbn [String.concat map] in *. rewrite !lower_app, IH. reflexivity.
Qed.

Lemma search_term_of_lower (args : list string) :
  search_term_of (map lower args) = search_term_of args.
Proof.
  unfold search_term_of. rewrite <- lower_join_space. apply lower_idem.
Qed.

Lemma search_term_lower (args : list string) :
  lower (search_term_of args) = search_term_of args.
Proof. apply lower_idem. Qed.

End TermFacts.

(** X6. The search commands do not see the case of what the user
    typed: argument lists that agree after lower-casing give the same
    run of [/ah] and of [/price]. *)
Theorem search_case_insensitive (remote : string → http_outcome)
    (fuel : nat) (args args' : list string) (uuid : string) (w : world) :
  map lower args = map lower args' →
  ah_command remote fuel args uuid w = ah_command remote fuel args' uuid w ∧
  price_command remote fuel args w = price_command remote fuel args' w.
Proof.
  intros H.
  assert (search_term_of args = search_term_of args') as Hterm.
  { rewrite <- (search_term_of_lower args), H. apply search_term_of_lower. }
  destruct args as [|a args], args' as [|a' args']; try discriminate.
  - split; reflexivity.
  - unfold ah_command, price_command. rewrite Hterm. split; reflexivity.
Qed.

Lemma search_case_insensitive_witness :
  ah_command sample_remote 100 ["Diamond"; "SWORD"] "id" empty_world
  = ah_command sample_remote 100 ["diamond"; "Sword"] "id" empty_world.
Proof.
  apply (search_case_insensitive sample_remote 100 ["Diamond"; "SWORD"]
           ["diamond"; "Sword"] "id" empty_world).
  reflexivity.
Defined.

(** ** Integers and their decimal form *)

Section DecimalFacts.

Lemma uint_value_of_uint_acc (d : Decimal.uint) (acc : positive) :
  Z.pos (Pos.of_uint_acc d acc) = uint_value (Z.pos acc) d.
Proof.
  revert acc. induction d as [|d IH|d IH|d IH|d IH|d IH|d IH|d IH|d IH|d IH|d IH];
    intros acc; cbn [Pos.of_uint_acc uint_value]; [reflexivity|..];
    rewrite IH; f_equal; lia.
Qed.

Lemma uint_value_of_uint (d : Decimal.uint) :
  Z.of_N (Pos.of_uint d) = uint_value 0 d.
Proof.
  induction d as [|d IH|d IH|d IH|d IH|d IH|d IH|d IH|d IH|d IH|d IH];
    cbn [Pos.of_uint uint_value]; [reflexivity | exact IH |..];
    cbn [Z.of_N]; rewrite uint_value_of_uint_acc; reflexivity.
Qed.

Lemma digits_from_uint (d : Decimal.uint) (acc : Z) (after_digit : bool) :
  digits_from acc after_digit (NilEmpty.string_of_uint d)
  = match d with
    | Decimal.Nil => if after_digit then Some acc else None
    | _ => Some (uint_value acc d)
    end.
Proof.
  revert acc after_digit.
  induction d as [|d IH|d IH|d IH|d IH|d IH|d IH|d IH|d IH|d IH|d IH];
    intros acc after_digit; [reflexivity|..];
    cbn [NilEmpty.string_of_uint digits_from uint_value];
    (change (digit_of "0") with (Some 0) ||
     change (digit_of "1") with (Some 1) ||
     change (digit_of "2") with (Some 2) ||
     change (digit_of "3") with (Some 3) ||
     change (digit_of "4") with (Some 4) ||
     change (digit_of "5") with (Some 5) ||
     change (digit_of "6") with (Some 6) ||
     change (digit_of "7") with (Some 7) ||
     change (digit_of "8") with (Some 8) ||
     change (digit_of "9") with (Some 9));
    cbv iota beta; rewrite IH; destruct d; reflexivity.
Qed.

Lemma unsigned_of_uint (d : Decimal.uint) :
  d ≠ Decimal.Nil →
  unsigned_of (NilEmpty.string_of_uint d) = Some (uint_value 0 d).
Proof.
  intros Hd. pose proof (digits_from_uint d 0 false) as H.
  destruct d; [contradiction|..]; exact H.
Qed.

Lemma int_of_str_uint (d : Decimal.uint) :
  d ≠ Decimal.Nil →
  int_of_str (NilEmpty.string_of_uint d) = Some (uint_value 0 d).
Proof.
  intros Hd. pose proof (unsigned_of_uint d Hd) as H.
  destruct d; [contradiction|..]; exact H.
Qed.

Lemma int_of_str_pos (p : positive) :
  int_of_str (NilEmpty.string_of_uint (Pos.to_uint p)) = Some (Z.pos p).
Proof.
  rewrite int_of_str_uint by apply DecimalPos.Unsigned.to_uint_nonnil.
  rewrite <- uint_value_of_uint, DecimalPos.Unsigned.of_to. reflexivity.
Qed.

Lemma mem_char_uint (c : ascii) (d : Decimal.uint) :
  digit_of c = None → mem_char c (NilEmpty.string_of_uint d) = false.
Proof.
  intros Hc.
  induction d as [|d IH|d IH|d IH|d IH|d IH|d IH|d IH|d IH|d IH|d IH];
    [reflexivity|..]; cbn [NilEmpty.string_of_uint mem_char]; rewrite IH;
    rewrite orb_false_r;
    match goal with
    | |- Ascii.eqb c ?k = false =>
        destruct (Ascii.eqb_spec c k) as [->|]; [discriminate Hc | reflexivity]
    end.
Qed.

Lemma mem_char_str_of_int (c : ascii) (n : Z) :
  digit_of c = None → c ≠ "-"%char → mem_char c (str_of_int n) = false.
Proof.
  intros Hc Hm. unfold str_of_int.
  destruct n as [|p|p]; cbn [Z.to_int NilEmpty.string_of_int].
  - apply (mem_char_uint c (Decimal.D0 Decimal.Nil) Hc).
  - apply mem_char_uint, Hc.
  - cbn [mem_char]. rewrite mem_char_uint by exact Hc.
    destruct (Ascii.eqb_spec c "-"); [contradiction | reflexivity].
Qed.

End DecimalFacts.

(** Printing a number and reading it back gives the number:
    [int(str(n)) == n]. *)
Lemma int_of_str_str_of_int (n : Z) : int_of_str (str_of_int n) = Some n.
Proof.
  unfold str_of_int. destruct n as [|p|p]; cbn [Z.to_int NilEmpty.string_of_int].
  - reflexivity.
  - apply int_of_str_pos.
  - pose proof (unsigned_of_uint (Pos.to_uint p)
                  (DecimalPos.Unsigned.to_uint_nonnil p)) as H.
    change (int_of_str (String "-" (NilEmpty.string_of_uint (Pos.to_uint p))))
      with (Z.opp <$> unsigned_of (NilEmpty.string_of_uint (Pos.to_uint p))).
    rewrite H, <- uint_value_of_uint, DecimalPos.Unsigned.of_to. reflexivity.
Qed.

(** ** Tokens *)

Section TokenFacts.

Lemma split_no_sep (sep : ascii) (a : string) :
  mem_char sep a = false → split sep a = [a].
Proof.
  induction a as [|c a IH]; [reflexivity|].
  cbn [mem_char split]. intros H. apply orb_false_iff in H as [Hc Ha].
  rewrite Ascii.eqb_sym, Hc, (IH Ha). reflexivity.
Qed.

Lemma split_app_sep (sep : ascii) (a rest : string) :
  mem_char sep a = false →
  split sep (a +:+ String sep rest) = a :: split sep rest.
Proof.
  induction a as [|c a IH]; intros H.
  - change ("" +:+ String sep rest) with (String sep rest).
    cbn [split]. rewrite Ascii.eqb_refl. reflexivity.
  - cbn [mem_char] in H. apply orb_false_iff in H as [Hc Ha].
    rewrite append_cons. cbn [split].
    rewrite Ascii.eqb_sym, Hc, (IH Ha). reflexivity.
Qed.

Lemma token_split (search_id : string) (n : Z) :
  mem_char ":" search_id = false →
  split ":" ("ah:" +:+ search_id +:+ ":" +:+ str_of_int n)
  = ["ah"; search_id; str_of_int n].
Proof.
  intros Hid.
  change ("ah:" +:+ search_id +:+ ":" +:+ str_of_int n)
    with ("ah" +:+ String ":" (search_id +:+ String ":" (str_of_int n))).
  rewrite split_app_sep by reflexivity.
  rewrite split_app_sep by exact Hid.
  rewrite split_no_sep; [reflexivity|].
  apply mem_char_str_of_int; [reflexivity | discriminate].
Qed.

Lemma button_tokens_well_formed_aux (search_id : string) (page_index : Z) :
  mem_char ":" search_id = false →
  well_formed_token (callback_data (next_button search_id page_index))
    search_id (page_index + 1) ∧
  well_formed_token (callback_data (previous_button search_id page_index))
    search_id (page_index - 1).
Proof.
  intros Hid. split.
  - exists (str_of_int (page_index + 1)).
    split; [apply token_split, Hid | apply int_of_str_str_of_int].
  - exists (str_of_int (page_index - 1)).
    split; [apply token_split, Hid | apply int_of_str_str_of_int].
Qed.

End TokenFacts.

(** X7. The navigation tokens the renderer writes are well formed: for
    a search id without a colon, the "next" button names page
    [page_index + 1] of that search and the "previous" button names
    page [page_index - 1]. *)
Theorem button_tokens_well_formed (search_id : string) (page_index : Z) :
  mem_char ":" search_id = false →
  well_formed_token (callback_data (next_button search_id page_index))
    search_id (page_index + 1) ∧
  well_formed_token (callback_data (previous_button search_id page_index))
    search_id (page_index - 1).
Proof. apply button_tokens_well_formed_aux. Qed.

Lemma button_tokens_well_formed_witness :
  well_formed_token "ah:3f2c:8" "3f2c" 8 ∧
  well_formed_token "ah:3f2c:6" "3f2c" 6.
Proof.
  apply (button_tokens_well_formed "3f2c" 7). reflexivity.
Defined.

Section RouterMoreFacts.

Lemma button_handler_hit (data search_id : string) (page_index : Z)
    (cached_data : cache_entry) (w : world) :
  well_formed_token data search_id page_index →
  chat_data w !! search_id = Some cached_data →
  let page :=
    build_ah_page search_id (term cached_data) (results cached_data)
      page_index in
  button_handler data w
  = Returned (send (EditMessageText (fst page) (Some (snd page)))
                (send AnswerQuery w)).
Proof.
  intros (pstr & Hsplit & Hint) Hhit page. subst page.
  unfold button_handler. rewrite Hsplit, Hint. cbn [String.eqb].
  change (chat_data (send AnswerQuery w)) with (chat_data w).
  rewrite Hhit. reflexivity.
Qed.

End RouterMoreFacts.

(** X8. Pressing a navigation button shows the neighbouring page: with
    the search still cached (and a search id without a colon), the
    token of the "next" button of page [page_index] makes the router
    edit the message to page [page_index + 1] of the cached results, and
    the token of the "previous" button to page [page_index - 1]. *)
Theorem buttons_lead_to_neighbours (search_id : string)
    (cached_data : cache_entry) (page_index : Z) (w : world) :
  mem_char ":" search_id = false →
  chat_data w !! search_id = Some cached_data →
  let shown i :=
    let page :=
      build_ah_page search_id (term cached_data) (results cached_data) i in
    Returned (send (EditMessageText (fst page) (Some (snd page)))
                (send AnswerQuery w)) in
  button_handler (callback_data (next_button search_id page_index)) w
  = shown (page_index + 1) ∧
  button_handler (callback_data (previous_button search_id page_index)) w
  = shown (page_index - 1).
Proof.
  intros Hid Hhit shown. subst shown.
  destruct (button_tokens_well_formed_aux search_id page_index Hid)
    as [Hnext Hprev].
  split; apply button_handler_hit; assumption.
Qed.

Lemma buttons_lead_to_neighbours_witness :
  let w := World [] [] sample_cache [] in
  let page := build_ah_page "id" "sword" (map sample_listing [100; 100; 300; 500]) 1 in
  button_handler "ah:id:1" w
  = Returned (send (EditMessageText (fst page) (Some (snd page)))
                (send AnswerQuery w)).
Proof.
  intros w page.
  destruct (buttons_lead_to_neighbours "id"
              (CacheEntry "sword" (map sample_listing [100; 100; 300; 500]))
              0 w) as [Hnext _].
  - reflexivity.
  - reflexivity.
  - exact Hnext.
Defined.

(** ** Paging through a result set *)

Section PagingFacts.

Lemma pages_concat (sorted_items : list listing) (m k : nat) :
  concat (map (page_items sorted_items) (pages_from (Z.of_nat k) m))
  = take (10 * m) (drop (10 * k) sorted_items).
Proof.
  revert k. induction m as [|m IH]; intros k.
  - rewrite Nat.mul_0_r. reflexivity.
  - cbn [pages_from map concat].
    replace (Z.of_nat k + 1) with (Z.of_nat (S k)) by lia.
    rewrite IH, page_items_nonneg by lia.
    replace (Z.to_nat (Z.of_nat k * 10)) with (10 * k)%nat by lia.
    replace (10 * S k)%nat with (10 * k + 10)%nat by lia.
    rewrite <- drop_drop, take_take_drop. f_equal. lia.
Qed.

Lemma page_items_nonempty (sorted_items : list listing) (page_index : Z) :
  0 <= page_index →
  page_items sorted_items page_index ≠ [] ↔
  page_index * 10 < Z.of_nat (length sorted_items).
Proof.
  intros Hp. pose proof (page_items_length sorted_items page_index Hp) as Hlen.
  split.
  - intros Hne. destruct (page_items sorted_items page_index); [contradiction|].
    cbn [length] in Hlen. lia.
  - intros Hin Hnil. rewrite Hnil in Hlen. cbn [length] in Hlen. lia.
Qed.

End PagingFacts.

(** X10. The pages partition the result set: pages 0, 1, ..., m-1 put
    one after the other are the first [10 * m] items, in order, so once
    [10 * m] reaches the item count they are the whole result set, each
    item on exactly one page. *)
Theorem pages_partition (sorted_items : list listing) (m : nat) :
  concat (map (page_items sorted_items) (pages_from 0 m))
  = take (10 * m) sorted_items ∧
  ((length sorted_items ≤ 10 * m)%nat →
   concat (map (page_items sorted_items) (pages_from 0 m)) = sorted_items).
Proof.
  pose proof (pages_concat sorted_items m 0) as H.
  rewrite Nat.mul_0_r, drop_0 in H. change (Z.of_nat 0) with 0 in H.
  split; [exact H|].
  intros Hlen. rewrite H. apply take_ge. lia.
Qed.

Lemma pages_partition_witness :
  let items := map sample_listing [5; 7; 9; 11; 13; 15; 17; 19; 21; 23; 25; 27] in
  page_items items 0 ++ page_items items 1 = items.
Proof.
  intros items.
  destruct (pages_partition items 2) as [_ Hall].
  rewrite <- Hall at 3 by (simpl; lia).
  cbn [pages_from map concat]. rewrite app_nil_r. reflexivity.
Defined.

(** X11. Navigation controls never lead from a page with items to an
    empty page: on a page with a non-negative index the "next" control
    is there exactly when the following page has items, and the page a
    "previous" control of a non-empty page leads to is a full page of
    ten. *)
Theorem controls_lead_to_items (search_id search_term : string)
    (sorted_items : list listing) (page_index : Z) :
  0 <= page_index →
  let kb := snd (build_ah_page search_id search_term sorted_items page_index) in
  (has_next kb = true ↔ page_items sorted_items (page_index + 1) ≠ []) ∧
  (has_previous kb = true →
   page_items sorted_items page_index ≠ [] →
   length (page_items sorted_items (page_index - 1)) = 10%nat).
Proof.
  intros Hp kb. subst kb. rewrite has_next_build, has_previous_build. split.
  - rewrite page_items_nonempty by lia. rewrite Z.ltb_lt. lia.
  - intros Hprev Hne. apply Z.gtb_lt in Hprev.
    apply page_items_nonempty in Hne; [|exact Hp].
    rewrite page_items_length by lia. lia.
Qed.

Lemma controls_lead_to_items_witness :
  let items := map sample_listing [5; 7; 9; 11; 13; 15; 17; 19; 21; 23; 25; 27] in
  page_items items 1 ≠ [] ∧ length (page_items items 0) = 10%nat.
Proof.
  intros items.
  destruct (controls_lead_to_items "id" "sword" items 0 ltac:(lia))
    as [Hnext _].
  destruct (controls_lead_to_items "id" "sword" items 1 ltac:(lia))
    as [_ Hprev].
  assert (page_items items 1 ≠ []) as Hne by (apply Hnext; reflexivity).
  split; [exact Hne|].
  apply Hprev; [reflexivity | exact Hne].
Defined.

(** X12. A negative page index is not rejected. Such a page never has a
    "previous" control; page -1 is empty; a page below -1 shows items
    counted from the end of the result set, as Python slices with
    negative bounds do. *)
Theorem negative_page_index (search_id search_term : string)
    (sorted_items : list listing) (page_index : Z) :
  page_index < 0 →
  let n := Z.of_nat (length sorted_items) in
  let page := build_ah_page search_id search_term sorted_items page_index in
  has_previous (snd page) = false ∧
  (has_next (snd page) = true ↔ page_index * 10 + 10 < n) ∧
  (page_index = -1 → page_items sorted_items page_index = []) ∧
  (page_index < -1 →
   page_items sorted_items page_index
   = take (Z.to_nat (n + page_index * 10 + 10) - Z.to_nat (n + page_index * 10))
          (drop (Z.to_nat (n + page_index * 10)) sorted_items)).
Proof.
  intros Hp n page. subst page.
  rewrite has_previous_build, has_next_build.
  split; [destruct (Z.gtb_spec page_index 0); [lia | reflexivity]|].
  split; [rewrite Z.ltb_lt; reflexivity|].
  unfold page_items, slice, ITEMS_PER_PAGE. fold n. split.
  - intros ->. change (-1 * 10 + 10 <? 0) with false.
    change (-1 * 10 <? 0) with true. cbv iota.
    replace (Z.to_nat ((-1 * 10 + 10) `min` n - (-1 * 10 + n) `max` 0))
      with 0%nat by lia.
    reflexivity.
  - intros Hlow.
    destruct (Z.ltb_spec (page_index * 10) 0) as [_|?]; [|lia].
    destruct (Z.ltb_spec (page_index * 10 + 10) 0) as [_|?]; [|lia].
    f_equal; [|f_equal]; lia.
Qed.

Lemma negative_page_index_witness :
  let items := map sample_listing [5; 7; 9; 11; 13; 15; 17; 19; 21; 23; 25; 27] in
  page_items items (-2) = map sample_listing [5; 7] ∧
  has_previous (snd (build_ah_page "id" "sword" items (-2))) = false ∧
  has_next (snd (build_ah_page "id" "sword" items (-2))) = true.
Proof.
  intros items.
  destruct (negative_page_index "id" "sword" items (-2) ltac:(lia))
    as (Hprev & Hnext & _ & Hitems).
  split; [rewrite Hitems by lia; reflexivity|].
  split; [exact Hprev|]. apply Hnext. simpl. lia.
Defined.

(** ** Sorting again *)

(** X13. Sorting a price-sorted list changes nothing, so sorting twice
    is sorting once. *)
Theorem py_sorted_fixed (l : list listing) :
  (StronglySorted listing_le l → py_sorted l = l) ∧
  py_sorted (py_sorted l) = py_sorted l.
Proof.
  assert (∀ k, StronglySorted listing_le k → py_sorted k = k) as Hfix.
  { induction 1 as [|x k Hk IH Hx]; [reflexivity|].
    cbn [py_sorted foldr]. fold (py_sorted k). rewrite IH.
    destruct k as [|y k]; [reflexivity|].
    apply Forall_cons in Hx as [Hxy _]. cbn [insert_sorted].
    unfold listing_le, key_le in Hxy. rewrite Hxy. reflexivity. }
  split; [apply Hfix | apply Hfix, py_sorted_sorted].
Qed.

Lemma py_sorted_fixed_witness :
  py_sorted (map sample_listing [100; 100; 300; 500])
  = map sample_listing [100; 100; 300; 500].
Proof.
  apply (proj1 (py_sorted_fixed (map sample_listing [100; 100; 300; 500]))).
  repeat constructor; vm_compute; reflexivity.
Defined.

(** ** What a returning scan has done *)

Section ScanInversion.

Variable remote : string → http_outcome.

Local Abbreviation api_data := (api_data remote).
Local Abbreviation page_listings := (page_listings remote).
Local Abbreviation collected := (collected remote).

Lemma price_scan_inv (search_term : string) (fuel : nat) :
  ∀ (page : Z) (acc : list listing) (w : world) found w',
    price_scan remote fuel search_term page acc w = Some (found, w') →
    ∃ n : nat,
      found = acc ++ collected search_term page n ∧
      scanned (pages_from page (S n)) w w' ∧
      (∀ i, (i < n)%nat → page_listings (page + Z.of_nat i) ≠ []) ∧
      page_listings (page + Z.of_nat n) = [].
Proof.
  induction fuel as [|fuel IH]; intros page acc w found w' Hrun;
    [discriminate|].
  cbn [price_scan] in Hrun.
  destruct (scan_fetch remote page w) as (w1 & Hfetch & Hw1).
  rewrite Hfetch in Hrun.
  assert (∀ l, auctions_of (api_data (list_endpoint page)) = l →
               (l = None ∨ l = Some []) →
               Some (acc, w1) = Some (found, w') →
               ∃ n : nat,
                 found = acc ++ collected search_term page n ∧
                 scanned (pages_from page (S n)) w w' ∧
                 (∀ i, (i < n)%nat → page_listings (page + Z.of_nat i) ≠ []) ∧
                 page_listings (page + Z.of_nat n) = []) as Hstop.
  { intros l El Hl [= <- <-]. exists 0%nat.
    rewrite collected_O, app_nil_r, Z.add_0_r.
    split; [reflexivity|]. split; [exact Hw1|]. split; [intros; lia|].
    apply page_listings_nil. rewrite El. exact Hl. }
  destruct (auctions_of (api_data (list_endpoint page))) as [[|x l]|] eqn:E.
  - apply (Hstop _ eq_refl); auto.
  - pose proof (page_listings_cons remote _ _ _ E) as Hx.
    destruct (IH _ _ _ _ _ Hrun) as (n & Hfound & Hw2 & Hfull & Hend).
    exists (S n). rewrite collected_S, Hx, app_assoc.
    replace (page + Z.of_nat (S n)) with (page + 1 + Z.of_nat n) by lia.
    split; [exact Hfound|].
    split; [eapply scanned_cons; eassumption|].
    split; [|exact Hend].
    intros i Hi. destruct i as [|i].
    + rewrite Z.add_0_r, Hx. discriminate.
    + replace (page + Z.of_nat (S i)) with (page + 1 + Z.of_nat i) by lia.
      apply Hfull. lia.
  - apply (Hstop _ eq_refl); auto.
Qed.

Lemma ah_scan_inv (search_term : string) (fuel : nat) :
  ∀ (page : Z) (acc : list listing) (w : world) found w',
    ah_scan remote fuel search_term page acc w = Some (found, w') →
    ∃ k c : nat,
      found = acc ++ collected search_term page k ∧
      scanned (pages_from page c) w w'.
Proof.
  induction fuel as [|fuel IH]; intros page acc w found w' Hrun;
    [discriminate|].
  cbn [ah_scan] in Hrun.
  destruct (scan_fetch remote page w) as (w1 & Hfetch & Hw1).
  rewrite Hfetch in Hrun.
  destruct (auctions_of (api_data (list_endpoint page))) as [[|x l]|] eqn:E.
  - injection Hrun as <- <-. exists 0%nat, 1%nat.
    rewrite collected_O, app_nil_r. split; [reflexivity | exact Hw1].
  - pose proof (page_listings_cons remote _ _ _ E) as Hx.
    destruct (page + 1 >? 100).
    + injection Hrun as <- <-. exists 1%nat, 1%nat.
      rewrite collected_S, collected_O, app_nil_r, Hx.
      split; [reflexivity | exact Hw1].
    + destruct (IH _ _ _ _ _ Hrun) as (k & c & Hfound & Hw2).
      exists (S k), (S c). rewrite collected_S, Hx, app_assoc.
      split; [exact Hfound|]. eapply scanned_cons; eassumption.
  - injection Hrun as <- <-. exists 0%nat, 1%nat.
    rewrite collected_O, app_nil_r. split; [reflexivity | exact Hw1].
Qed.

(** The world an [/ah] run ends in, case by case. *)
Lemma ah_command_inv (fuel : nat) (args : list string) (uuid : string)
    (w w' : world) :
  ah_command remote fuel args uuid w = Some w' →
  let search_term := search_term_of args in
  (chat_data w' = chat_data w ∧
   ∀ text kb, last (outbox w') ≠ Some (ReplyText text (Some kb))) ∨
  (∃ (k : nat) (y : listing) (found' : list listing),
     collected search_term 1 k = y :: found' ∧
     let sorted_items := py_sorted (y :: found') in
     let page := build_ah_page uuid search_term sorted_items 0 in
     chat_data w'
     = <[uuid := CacheEntry search_term sorted_items]> (chat_data w) ∧
     last (outbox w') = Some (ReplyText (fst page) (Some (snd page)))).
Proof.
  intros Hrun search_term.
  destruct args as [|x args].
  { injection Hrun as <-. left. split; [reflexivity|].
    intros text kb. cbn [outbox send]. rewrite last_snoc. discriminate. }
  set (notice := searching_notice search_term "This may take a moment\.\.\.").
  destruct (ah_scan remote fuel search_term 1 [] (send notice w))
    as [[found w1]|] eqn:Escan.
  - rewrite (ah_command_result remote fuel x args uuid w w1 found Escan)
      in Hrun.
    injection Hrun as <-.
    destruct (ah_scan_inv _ _ _ _ _ _ _ Escan) as (k & c & Hfound & Hw1).
    rewrite app_nil_l in Hfound.
    apply scanned_after_notice in Hw1 as (_ & Hcache & _).
    destruct found as [|y found'].
    + left. cbn [chat_data send]. split; [exact Hcache|].
      intros text kb. cbn [outbox send]. rewrite last_snoc. discriminate.
    + right. exists k, y, found'. split; [symmetry; exact Hfound|].
      cbv zeta. cbn [chat_data outbox send store].
      rewrite Hcache, last_snoc. split; reflexivity.
  - unfold ah_command in Hrun. fold search_term in Hrun. fold notice in Hrun.
    rewrite Escan in Hrun. discriminate.
Qed.

End ScanInversion.

Lemma collected_matches (remote : string → http_outcome)
    (search_term : string) (first : Z) (count : nat) :
  Forall (λ item, matches search_term item = true)
         (collected remote search_term first count).
Proof.
  unfold collected. apply Forall_forall. intros item Hitem.
  apply list_elem_of_filter in Hitem. tauto.
Qed.

(** ** The cache *)

(** X14. What [/ah] does to the cache: it touches no entry but the one
    under its own fresh search id, and every entry it writes has a
    lower-case term and a non-empty, price-sorted list of listings that
    all match that term; so a cache whose entries are all of this kind
    stays so. *)
Theorem ah_command_keeps_cache_ok (remote : string → http_outcome)
    (fuel : nat) (args : list string) (uuid : string) (w w' : world) :
  ah_command remote fuel args uuid w = Some w' →
  (∀ search_id,
     search_id ≠ uuid → chat_data w' !! search_id = chat_data w !! search_id) ∧
  (chat_data w' !! uuid = chat_data w !! uuid ∨
   ∃ e, chat_data w' !! uuid = Some e ∧ entry_ok e) ∧
  (cache_ok (chat_data w) → cache_ok (chat_data w')).
Proof.
  intros Hrun.
  destruct (ah_command_inv remote fuel args uuid w w' Hrun)
    as [[Hsame _] | (k & y & found' & Hfound & Hcache & _)].
  - rewrite Hsame. split; [reflexivity|]. split; [left; reflexivity|]. tauto.
  - cbv zeta in Hcache.
    assert (entry_ok (CacheEntry (search_term_of args) (py_sorted (y :: found'))))
      as Hok.
    { unfold entry_ok. cbn [term results].
      split; [apply search_term_lower|].
      split; [intros Hnil; apply py_sorted_nil_inv in Hnil; discriminate|].
      split; [apply py_sorted_sorted|].
      rewrite <- (py_sorted_perm (y :: found')), <- Hfound.
      apply collected_matches. }
    rewrite Hcache. split; [|split].
    + intros search_id Hne. apply lookup_insert_ne. congruence.
    + right. eexists. split; [apply lookup_insert_eq | exact Hok].
    + intros Hall search_id e. rewrite lookup_insert.
      destruct (decide (uuid = search_id)) as [_|_].
      * intros [= <-]. exact Hok.
      * apply Hall.
Qed.

Lemma ah_command_keeps_cache_ok_witness :
  ∃ w',
    ah_command sample_remote 100 ["sword"] "new" (World [] [] sample_cache [])
    = Some w' ∧
    chat_data w' !! "id" = sample_cache !! "id".
Proof.
  destruct (ah_command sample_remote 100 ["sword"] "new"
              (World [] [] sample_cache [])) as [w'|] eqn:Hrun;
    [|vm_compute in Hrun; discriminate].
  exists w'. split; [reflexivity|].
  apply (ah_command_keeps_cache_ok _ _ _ _ _ _ Hrun). discriminate.
Defined.

(** X15. Only [/ah] writes the cache: [/auctions] and, whenever it
    returns, [/price] leave the conversation's cache as it was. *)
Theorem other_commands_leave_cache (remote : string → http_outcome)
    (fuel : nat) (args : list string) (w : world) :
  chat_data (auctions_command remote args w) = chat_data w ∧
  ∀ w', price_command remote fuel args w = Some w' →
        chat_data w' = chat_data w.
Proof.
  split.
  - unfold auctions_command.
    set (page := match args with a :: _ => a | [] => str_of_int 1 end).
    set (w0 := send _ w).
    assert (∀ endpoint,
              chat_data (snd (make_api_request remote endpoint w0))
              = chat_data w) as Hreq.
    { intros endpoint. unfold make_api_request.
      destruct (remote (BASE_URL +:+ endpoint)) as [e|s t [e|d]];
        repeat case_match; reflexivity. }
    specialize (Hreq ("/auction/list/" +:+ page)).
    destruct (make_api_request remote ("/auction/list/" +:+ page) w0)
      as [data w1].
    cbn [snd] in Hreq.
    destruct (auctions_of data) as [[|x l]|]; exact Hreq.
  - intros w' Hrun. destruct args as [|x args].
    { injection Hrun as <-. reflexivity. }
    set (search_term := search_term_of (x :: args)) in *.
    set (notice := searching_notice search_term "This will be very slow\.\.\.").
    destruct (price_scan remote fuel search_term 1 [] (send notice w))
      as [[found w1]|] eqn:Escan.
    + rewrite (price_command_result remote fuel x args w w1 found Escan)
        in Hrun.
      injection Hrun as <-.
      destruct (price_scan_inv _ _ _ _ _ _ _ _ Escan) as (n & _ & Hw1 & _).
      apply scanned_after_notice in Hw1 as (_ & Hcache & _).
      destruct (py_min found); exact Hcache.
    + unfold price_command in Hrun. fold search_term in Hrun.
      fold notice in Hrun. rewrite Escan in Hrun. discriminate.
Qed.

Lemma other_commands_leave_cache_witness :
  ∃ w',
    price_command sample_remote 3 ["sword"] (World [] [] sample_cache [])
    = Some w' ∧
    chat_data w' = sample_cache.
Proof.
  destruct (price_command sample_remote 3 ["sword"]
              (World [] [] sample_cache [])) as [w'|] eqn:Hrun;
    [|vm_compute in Hrun; discriminate].
  exists w'. split; [reflexivity|].
  apply (proj2 (other_commands_leave_cache sample_remote 3 ["sword"]
                  (World [] [] sample_cache [])) w' Hrun).
Defined.

(** X16. A search can be paged right after it was made. When [/ah]
    answers with a page (and the search id has no colon), the search is
    in the cache under that id, and for every page index the token
    ["ah:<id>:<index>"] makes the router show that page of the cached
    results; for index 0 this is the very text and keyboard [/ah]
    replied with. *)
Theorem ah_then_button (remote : string → http_outcome) (fuel : nat)
    (args : list string) (uuid : string) (w w' : world)
    (text : string) (kb : keyboard) :
  mem_char ":" uuid = false →
  ah_command remote fuel args uuid w = Some w' →
  last (outbox w') = Some (ReplyText text (Some kb)) →
  ∃ e,
    chat_data w' !! uuid = Some e ∧
    term e = search_term_of args ∧
    build_ah_page uuid (term e) (results e) 0 = (text, kb) ∧
    ∀ page_index,
      let page := build_ah_page uuid (term e) (results e) page_index in
      button_handler ("ah:" +:+ uuid +:+ ":" +:+ str_of_int page_index) w'
      = Returned (send (EditMessageText (fst page) (Some (snd page)))
                    (send AnswerQuery w')).
Proof.
  intros Hid Hrun Hlast.
  destruct (ah_command_inv remote fuel args uuid w w' Hrun)
    as [[_ Hno] | (k & y & found' & Hfound & Hcache & Hout)].
  { exfalso. exact (Hno text kb Hlast). }
  cbv zeta in Hcache, Hout.
  rewrite Hout in Hlast. injection Hlast as Htext Hkb.
  exists (CacheEntry (search_term_of args) (py_sorted (y :: found'))).
  cbn [term results].
  split; [rewrite Hcache; apply lookup_insert_eq|].
  split; [reflexivity|].
  split; [rewrite <- Htext, <- Hkb; reflexivity|].
  intros page_index.
  apply (button_handler_hit _ uuid page_index
           (CacheEntry (search_term_of args) (py_sorted (y :: found')))).
  - exists (str_of_int page_index).
    split; [apply token_split, Hid | apply int_of_str_str_of_int].
  - rewrite Hcache. apply lookup_insert_eq.
Qed.

Lemma ah_then_button_witness :
  ∃ w' text kb,
    ah_command sample_remote 100 ["sword"] "3f2c-9a" empty_world = Some w' ∧
    button_handler "ah:3f2c-9a:0" w'
    = Returned (send (EditMessageText text (Some kb)) (send AnswerQuery w')).
Proof.
  destruct (ah_command sample_remote 100 ["sword"] "3f2c-9a" empty_world)
    as [w'|] eqn:Hrun; [|vm_compute in Hrun; discriminate].
  pose proof Hrun as Hw. vm_compute in Hw. injection Hw as Hw.
  assert (∃ text kb, last (outbox w') = Some (ReplyText text (Some kb)))
    as (text & kb & Hlast).
  { rewrite <- Hw. vm_compute. eauto. }
  destruct (ah_then_button sample_remote 100 ["sword"] "3f2c-9a" empty_world
              w' text kb eq_refl Hrun Hlast) as (e & _ & _ & Hpage & Hpress).
  exists w', text, kb. split; [reflexivity|].
  specialize (Hpress 0). cbv zeta in Hpress. rewrite Hpage in Hpress.
  exact Hpress.
Defined.

(** ** Narrowing a search *)

Section NarrowingFacts.

Lemma append_assoc (a b c : string) : (a +:+ b) +:+ c = a +:+ (b +:+ c).
Proof.
  induction a as [|x a IH]; [reflexivity|].
  rewrite !append_cons, IH. reflexivity.
Qed.

Lemma contains_trans (a b c : string) :
  contains a b = true → contains b c = true → contains a c = true.
Proof.
  rewrite !contains_spec. intros (u & v & ->) (x & y & ->).
  exists (x +:+ u), (v +:+ y). rewrite !append_assoc. reflexivity.
Qed.

Lemma filter_sublist_impl {A} (P Q : A → Prop)
    `{∀ x, Decision (P x)} `{∀ x, Decision (Q x)} (l : list A) :
  (∀ x, P x → Q x) → filter P l `sublist_of` filter Q l.
Proof.
  intros Himpl. induction l as [|x l IH]; [constructor|].
  rewrite !filter_cons.
  destruct (decide (P x)) as [HP|HP].
  - rewrite decide_True by auto. constructor. exact IH.
  - destruct (decide (Q x)); [constructor|]; exact IH.
Qed.

End NarrowingFacts.

(** X17. A longer search term never finds more: when the term [wide] is
    a substring of the term [narrow], every listing matching [narrow]
    matches [wide], and what a scan collects for [narrow] is a
    subsequence, in the same order, of what it collects for [wide]. *)
Theorem narrower_term_fewer_matches (remote : string → http_outcome)
    (wide narrow : string) (first : Z) (count : nat) :
  contains wide narrow = true →
  (∀ item, matches narrow item = true → matches wide item = true) ∧
  collected remote narrow first count
    `sublist_of` collected remote wide first count.
Proof.
  intros Hsub.
  assert (∀ item, matches narrow item = true → matches wide item = true)
    as Himpl.
  { intros item. unfold matches. apply contains_trans, Hsub. }
  split; [exact Himpl|].
  unfold collected. apply filter_sublist_impl, Himpl.
Qed.

Lemma narrower_term_fewer_matches_witness :
  collected sample_remote "diamond sword" 1 2
    `sublist_of` collected sample_remote "sword" 1 2.
Proof.
  apply (narrower_term_fewer_matches sample_remote "sword" "diamond sword" 1 2).
  reflexivity.
Defined.

(** ** Listing one page *)

(** X18. [/auctions] makes one request, for the page it was given
    (page 1 when it was given none), and shows at most ten listings:
    when the page has listings the reply is the header followed by one
    line for each of the first ten, rendered as on a page of [/ah];
    when it has none, or the request fails, the reply says so. *)
Theorem auctions_command_page (remote : string → http_outcome)
    (args : list string) (w : world) :
  let page := default (str_of_int 1) (head args) in
  let w' := auctions_command remote args w in
  let listings :=
    default [] (auctions_of (api_data remote ("/auction/list/" +:+ page))) in
  requests w' = requests w ++ [BASE_URL +:+ "/auction/list/" +:+ page] ∧
  outbox w'
  = outbox w ++
    [ReplyText ("🛒 Fetching Auction House page " +:+ page +:+ "\.\.\.") None;
     ReplyText
       match listings with
       | [] => "No auction items found on this page\."
       | _ :: _ =>
           join newline
             (("*Auction House \- Page " +:+ page +:+ "*")
              :: map render_line (take 10 listings))
       end None] ∧
  (length (take 10 listings) ≤ 10)%nat ∧
  (∀ p : Z, page = str_of_int p → listings = page_listings remote p).
Proof.
  intros page w' listings. subst w' listings.
  assert (page = match args with a :: _ => a | [] => str_of_int 1 end) as Hpage.
  { subst page. destruct args; reflexivity. }
  unfold auctions_command. rewrite <- Hpage.
  set (w0 := send _ w).
  pose proof (make_api_request_data remote ("/auction/list/" +:+ page) w0)
    as Hdata.
  assert (requests (snd (make_api_request remote ("/auction/list/" +:+ page) w0))
          = requests w ++ [BASE_URL +:+ "/auction/list/" +:+ page] ∧
          outbox (snd (make_api_request remote ("/auction/list/" +:+ page) w0))
          = outbox w0) as [Hreq Hout].
  { unfold make_api_request.
    destruct (remote (BASE_URL +:+ "/auction/list/" +:+ page)) as [e|s t [e|d]];
      repeat case_match; split; reflexivity. }
  destruct (make_api_request remote ("/auction/list/" +:+ page) w0)
    as [data w1].
  cbn [fst snd] in Hdata, Hreq, Hout. rewrite <- Hdata.
  split; [|split; [|split]].
  - destruct (auctions_of data) as [[|x l]|]; exact Hreq.
  - destruct (auctions_of data) as [[|x l]|]; cbn [outbox send default];
      rewrite Hout; subst w0; cbn [outbox send]; rewrite <- app_assoc;
      try reflexivity.
    rewrite slice_nonneg by lia. reflexivity.
  - rewrite length_take. lia.
  - intros p Hp. rewrite Hdata, Hp. reflexivity.
Qed.

Lemma auctions_command_page_witness :
  requests (auctions_command sample_remote [] empty_world) = [page_url 1] ∧
  default [] (auctions_of (api_data sample_remote "/auction/list/1"))
  = page_listings sample_remote 1.
Proof.
  destruct (auctions_command_page sample_remote [] empty_world)
    as (Hreq & _ & _ & Hfirst).
  split; [exact Hreq | exact (Hfirst 1 eq_refl)].
Defined.

(** ** [/price] against [/ah], cap or no cap *)

Section PriceAgainstAh.

Variable remote : string → http_outcome.

Local Abbreviation api_data := (api_data remote).
Local Abbreviation page_listings := (page_listings remote).
Local Abbreviation collected := (collected remote).

Lemma ah_scan_inv_full (search_term : string) (fuel : nat) :
  ∀ (page : Z) (acc : list listing) (w : world) found w',
    ah_scan remote fuel search_term page acc w = Some (found, w') →
    ∃ k : nat,
      found = acc ++ collected search_term page k ∧
      ∀ i, (i < k)%nat → page_listings (page + Z.of_nat i) ≠ [].
Proof.
  induction fuel as [|fuel IH]; intros page acc w found w' Hrun;
    [discriminate|].
  cbn [ah_scan] in Hrun.
  destruct (scan_fetch remote page w) as (w1 & Hfetch & Hw1).
  rewrite Hfetch in Hrun.
  destruct (auctions_of (api_data (list_endpoint page))) as [[|x l]|] eqn:E.
  - injection Hrun as <- <-. exists 0%nat.
    rewrite collected_O, app_nil_r. split; [reflexivity | intros; lia].
  - pose proof (page_listings_cons remote _ _ _ E) as Hx.
    assert (∀ i k, (i < S k)%nat →
              (∀ j, (j < k)%nat → page_listings (page + 1 + Z.of_nat j) ≠ []) →
              page_listings (page + Z.of_nat i) ≠ []) as Hshift.
    { intros i k Hi Hfull. destruct i as [|i].
      - rewrite Z.add_0_r, Hx. discriminate.
      - replace (page + Z.of_nat (S i)) with (page + 1 + Z.of_nat i) by lia.
        apply Hfull. lia. }
    destruct (page + 1 >? 100).
    + injection Hrun as <- <-. exists 1%nat.
      rewrite collected_S, collected_O, app_nil_r, Hx.
      split; [reflexivity|]. intros i Hi. apply (Hshift i 0%nat Hi).
      intros; lia.
    + destruct (IH _ _ _ _ _ Hrun) as (k & Hfound & Hfull).
      exists (S k). rewrite collected_S, Hx, app_assoc.
      split; [exact Hfound|]. intros i Hi. exact (Hshift i k Hi Hfull).
  - injection Hrun as <- <-. exists 0%nat.
    rewrite collected_O, app_nil_r. split; [reflexivity | intros; lia].
Qed.

Lemma collected_prefix (search_term : string) (k : nat) :
  ∀ (first : Z) (n : nat),
    (k ≤ n)%nat →
    ∃ more, collected search_term first n
            = collected search_term first k ++ more.
Proof.
  induction k as [|k IH]; intros first n Hkn.
  - rewrite collected_O. eauto.
  - destruct n as [|n]; [lia|].
    destruct (IH (first + 1) n ltac:(lia)) as (more & Hmore).
    exists more. rewrite !collected_S, Hmore, app_assoc. reflexivity.
Qed.

Lemma py_min_least (l : list listing) (m x : listing) :
  py_min l = Some m → x ∈ l → key_le (price_key m) (price_key x).
Proof.
  intros Hmin Hx.
  destruct (py_min_first_least l m Hmin) as (pre & post & -> & Hpre & Hpost).
  rewrite Forall_forall in Hpre, Hpost.
  apply elem_of_app in Hx as [Hx|Hx].
  - apply key_lt_le, Hpre, Hx.
  - apply elem_of_cons in Hx as [->|Hx].
    + apply key_lt_irrefl.
    + apply Hpost, Hx.
Qed.

End PriceAgainstAh.

(** X19. [/price] is never beaten by [/ah]. Whenever both commands
    return for the same arguments and [/ah] answers with a page, the
    listing [/price] selects (the [min] of the matches on all the pages
    before the first page without listings, which is the listing whose
    item name, seller and price its answer shows) has a price key that
    is at most that of the first listing of the cached [/ah] result;
    this holds also when the remote listing goes on beyond the 100-page
    cap. *)
Theorem price_not_above_ah (remote : string → http_outcome)
    (fuel_price fuel_ah : nat) (args : list string) (uuid : string)
    (w w_price w_ah : world) (text : string) (kb : keyboard) :
  price_command remote fuel_price args w = Some w_price →
  ah_command remote fuel_ah args uuid w = Some w_ah →
  last (outbox w_ah) = Some (ReplyText text (Some kb)) →
  ∃ (n : nat) (lowest first : listing) (rest : list listing),
    (∀ i, (i < n)%nat → page_listings remote (1 + Z.of_nat i) ≠ []) ∧
    page_listings remote (1 + Z.of_nat n) = [] ∧
    py_min (collected remote (search_term_of args) 1 n) = Some lowest ∧
    last (outbox w_price)
    = Some (ReplyText
              ("💎 *Lowest Price Found*" +:+ newline +:+ newline
               +:+ "Item: `"
               +:+ escape_markdown
                     (format_item_id (default "Unknown" (item_id lowest)))
               +:+ "`" +:+ newline
               +:+ "Seller: *"
               +:+ escape_markdown (default "Unknown" (seller_name lowest))
               +:+ "*" +:+ newline
               +:+ "Price: \`$"
               +:+ escape_markdown
                     (format_thousands (default 0 (price lowest)))
               +:+ "\`")
              None) ∧
    chat_data w_ah !! uuid
    = Some (CacheEntry (search_term_of args) (first :: rest)) ∧
    key_le (price_key lowest) (price_key first).
Proof.
  intros Hprice Hah Hlast.
  destruct (ah_command_inv remote fuel_ah args uuid w w_ah Hah)
    as [[_ Hno] | (k0 & y0 & found0 & _ & Hcache & _)].
  { exfalso. exact (Hno text kb Hlast). }
  clear k0 y0 found0 Hcache.
  destruct args as [|x args].
  { injection Hah as <-. cbn [outbox send] in Hlast.
    rewrite last_snoc in Hlast. discriminate. }
  set (search_term := search_term_of (x :: args)) in *.
  set (notice_a := searching_notice search_term "This may take a moment\.\.\.").
  set (notice_p := searching_notice search_term "This will be very slow\.\.\.").
  destruct (ah_scan remote fuel_ah search_term 1 [] (send notice_a w))
    as [[fa wa]|] eqn:Ea;
    [|unfold ah_command in Hah; fold search_term in Hah; fold notice_a in Hah;
      rewrite Ea in Hah; discriminate].
  destruct (price_scan remote fuel_price search_term 1 [] (send notice_p w))
    as [[fp wp]|] eqn:Ep;
    [|unfold price_command in Hprice; fold search_term in Hprice;
      fold notice_p in Hprice; rewrite Ep in Hprice; discriminate].
  rewrite (ah_command_result remote fuel_ah x args uuid w wa fa Ea) in Hah.
  rewrite (price_command_result remote fuel_price x args w wp fp Ep) in Hprice.
  injection Hah as <-. injection Hprice as <-.
  destruct (ah_scan_inv_full remote _ _ _ _ _ _ _ Ea) as (k & Hfa & Hfull).
  destruct (price_scan_inv remote _ _ _ _ _ _ _ Ep)
    as (n & Hfp & _ & Hfullp & Hend).
  rewrite app_nil_l in Hfa, Hfp.
  assert (k ≤ n)%nat as Hkn.
  { destruct (Nat.le_gt_cases k n) as [?|Hgt]; [assumption|].
    exfalso. exact (Hfull n Hgt Hend). }
  destruct (collected_prefix remote search_term k 1 n Hkn) as (more & Hmore).
  rewrite <- Hfa, <- Hfp in Hmore.
  destruct fa as [|y fa'].
  { cbn [outbox send] in Hlast. rewrite last_snoc in Hlast. discriminate. }
  destruct (py_sorted (y :: fa')) as [|first rest] eqn:Esorted.
  { apply py_sorted_nil_inv in Esorted. discriminate. }
  assert (first ∈ fp) as Hin.
  { rewrite Hmore. apply elem_of_app. left.
    pose proof (py_sorted_perm (y :: fa')) as Hperm.
    rewrite Esorted in Hperm. rewrite Hperm. apply elem_of_cons. auto. }
  destruct (py_min fp) as [lowest|] eqn:Emin.
  - exists n, lowest, first, rest.
    cbv zeta. cbn [outbox chat_data send store]. rewrite last_snoc.
    split; [exact Hfullp|]. split; [exact Hend|].
    split; [rewrite <- Hfp; exact Emin|].
    split; [reflexivity|].
    split; [apply lookup_insert_eq|].
    eapply py_min_least; eassumption.
  - apply py_min_None in Emin. rewrite Emin in Hin.
    apply elem_of_nil in Hin. contradiction.
Qed.

Lemma price_not_above_ah_witness :
  ∃ w_price w_ah rest,
    price_command sample_remote 3 ["sword"] empty_world = Some w_price ∧
    last (outbox w_price)
    = Some (ReplyText "💎 *Lowest Price Found*

Item: `Diamond Sword`
Seller: *Steve*
Price: \`$50\`" None) ∧
    ah_command sample_remote 100 ["sword"] "id" empty_world = Some w_ah ∧
    chat_data w_ah !! "id" = Some (CacheEntry "sword" (sample_listing 50 :: rest)).
Proof.
  destruct (price_command sample_remote 3 ["sword"] empty_world)
    as [w_price|] eqn:Hp; [|vm_compute in Hp; discriminate].
  destruct (ah_command sample_remote 100 ["sword"] "id" empty_world)
    as [w_ah|] eqn:Ha; [|vm_compute in Ha; discriminate].
  pose proof Ha as Hw. vm_compute in Hw. injection Hw as Hw.
  assert (∃ text kb, last (outbox w_ah) = Some (ReplyText text (Some kb)))
    as (text & kb & Hlast).
  { rewrite <- Hw. vm_compute. eauto. }
  destruct (price_not_above_ah sample_remote 3 100 ["sword"] "id" empty_world
              w_price w_ah text kb Hp Ha Hlast)
    as (n & lowest & first & rest & Hfull & Hend & Hmin & Hout & Hcache & _).
  assert (n = 2%nat) as ->.
  { destruct n as [|[|[|n]]]; [vm_compute in Hend; discriminate ..
                               | reflexivity |].
    exfalso. apply (Hfull 2%nat); [lia | reflexivity]. }
  vm_compute in Hmin. injection Hmin as <-.
  exists w_price, w_ah, rest. split; [reflexivity|].
  split; [rewrite Hout; reflexivity|]. split; [reflexivity|].
  rewrite Hcache. rewrite <- Hw in Hcache. vm_compute in Hcache.
  injection Hcache as <- <-. reflexivity.
Defined.
